(** * ccbot: the entity registry (src/entity-registry.ts)

    A shallow embedding of the [Entity] base class and of the
    [EntityRegistry] class, and the properties the specification states
    about them.

    Conventions of the embedding.
    - JavaScript numbers that hold epoch milliseconds or counters are
      integers ([Z], [nat]); the source never divides them.
    - Entity objects are mutable and shared between the registry's live map
      and the timers of the entity, so they live in an object heap
      ([objects]) and the live map holds references into it.
    - [entities] and [entityTypes] are JavaScript objects used as
      dictionaries; they are finite maps / sets over strings.  The
      enumeration order of [for (k in ...)] is the enumeration order of the
      finite map.  Both are plain objects, so [k in obj] and [obj[k]] also
      see the names inherited from [Object.prototype]
      ([objectPrototypeKeys]): [newEntity] models what line 172 does with
      such a type; the kill steps model ids that are not such names
      ([plainKey], [plainOp]), for which line 211 would throw.
    - An object a factory makes enters the heap when the factory makes it
      ([construct], the constructor of the class) or, for an object made
      otherwise, when its promise resolves ([newEntityThen]); a factory may
      also resolve with an object that is in the heap already
      ([settleWith]).
    - An optional property ([createTime?], a missing [id]) is an [option];
      [None] is "the property is absent".
    - Work that the source defers ([setImmediate], [setTimeout], a pending
      factory promise) is kept in queues of the state and run by explicit
      steps, so every interleaving of the event loop is a sequence of
      steps.
    - Calls that leave the registry (the store's mutation entry point, the
      [onKill] hook, a factory call, [console.log], settling the promise
      returned by [newEntity]) are recorded in a trace. *)

From stdpp Require Import gmap strings list fin_maps pretty.

(** ** Entity data (interface [EntityData], lines 7-11) *)

(** The persisted form of an entity.  [d_extra] holds the type-specific
    properties of the object, which the base class never reads. *)
Record EntityData := mkEntityData {
  d_type : string;
  d_createTime : option Z;
  d_killTime : option Z;
  d_extra : gmap string string
}.

(** The names of the own properties of a data object. *)
Definition fieldNames (d : EntityData) : gset string :=
  {[ "type" ]}
  ∪ (match d_createTime d with Some _ => {[ "createTime" ]} | None => ∅ end)
  ∪ (match d_killTime d with Some _ => {[ "killTime" ]} | None => ∅ end)
  ∪ dom (d_extra d).

(** ** Entity objects (class [Entity], lines 21-117) *)

Record Entity := mkEntity {
  killed : bool;
  id : option string;
  type : string;
  createTime : Z;
  killTime : Z
}.

Definition set_killed (b : bool) (e : Entity) : Entity :=
  mkEntity b (id e) (type e) (createTime e) (killTime e).

Definition set_id (i : string) (e : Entity) : Entity :=
  mkEntity (killed e) (Some i) (type e) (createTime e) (killTime e).

Definition set_killTime (k : Z) (e : Entity) : Entity :=
  mkEntity (killed e) (id e) (type e) (createTime e) k.

(** [a || 0] on numbers: [0] is the only falsy integer. *)
Definition or_zero (a : option Z) : Z :=
  match a with
  | Some k => if (k =? 0)%Z then 0%Z else k
  | None => 0%Z
  end.

(** The fields the constructor (lines 44-55) gives a new object.  [now] is
    the value of [new Date().getTime()]. *)
Definition Entity_new (now : Z) (i : string) (data : EntityData) : Entity :=
  {| killed := false;
     type := d_type data;
     id := Some i;
     createTime :=
       match d_createTime data with
       | Some t => t
       | None => now
       end;
     killTime := or_zero (d_killTime data) |}.

(** Lines 56-59: the constructor defers a first expiry check exactly when
    the kill time is truthy. *)
Definition Entity_new_defers_check (data : EntityData) : bool :=
  negb (or_zero (d_killTime data) =? 0)%Z.

(** [toSaveData] (lines 108-116).  [killTime] is a declared field that the
    constructor always assigns, so ['killTime' in this] holds for every
    object of the class. *)
Definition has_killTime (e : Entity) : bool := true.

Definition toSaveData (e : Entity) : EntityData :=
  let sd :=
    {| d_type := type e;
       d_createTime := Some (createTime e);
       d_killTime := None;
       d_extra := ∅ |} in
  if has_killTime e
  then mkEntityData (d_type sd) (d_createTime sd) (Some (killTime e)) (d_extra sd)
  else sd.

(** ** The state: registry, store, object heap and event loop *)

(** Deferred work of the event loop: the flush callback of
    [markPendingFlush] and the expiry check of an entity object. *)
Inductive Callback :=
  | FlushCb
  | CheckCb (r : nat).

(** Calls that leave the registry, and the rebuilds of the live set. *)
Inductive Event :=
  | EvModify                         (* this.entityData.modify(...) *)
  | EvReset                          (* resetEntities() rebuilt the live set *)
  | EvFactory (data : EntityData)    (* entityTypes[data.type](client, data) *)
  | EvOnKill (r : nat)               (* v.onKill() on object r *)
  | EvLog (msg : string)             (* console.log *)
  | EvRejected                       (* reject() of a newEntity promise *)
  | EvResolved (r : nat).            (* resolve(newEnt) of a newEntity promise *)

Record State := mkState {
  (* heap of entity objects; a reference is an index *)
  objects : list Entity;
  (* fields of EntityRegistry, lines 125-137 *)
  entityTypes : gset string;
  entities : gmap string nat;
  duringOurModification : bool;
  pendingEntityFlush : bool;
  started : bool;
  (* the store: entityData.data *)
  entityData : list EntityData;
  (* event loop *)
  inflight : list EntityData;        (* factory promises not yet settled *)
  immediates : list Callback;        (* setImmediate queue *)
  timeouts : list (Callback * Z);    (* setTimeout(callback, delay) *)
  trace : list Event
}.

Definition set_objects v st :=
  mkState v (entityTypes st) (entities st) (duringOurModification st)
    (pendingEntityFlush st) (started st) (entityData st) (inflight st)
    (immediates st) (timeouts st) (trace st).
Definition set_entityTypes v st :=
  mkState (objects st) v (entities st) (duringOurModification st)
    (pendingEntityFlush st) (started st) (entityData st) (inflight st)
    (immediates st) (timeouts st) (trace st).
Definition set_entities v st :=
  mkState (objects st) (entityTypes st) v (duringOurModification st)
    (pendingEntityFlush st) (started st) (entityData st) (inflight st)
    (immediates st) (timeouts st) (trace st).
Definition set_duringOurModification v st :=
  mkState (objects st) (entityTypes st) (entities st) v
    (pendingEntityFlush st) (started st) (entityData st) (inflight st)
    (immediates st) (timeouts st) (trace st).
Definition set_pendingEntityFlush v st :=
  mkState (objects st) (entityTypes st) (entities st) (duringOurModification st)
    v (started st) (entityData st) (inflight st)
    (immediates st) (timeouts st) (trace st).
Definition set_started v st :=
  mkState (objects st) (entityTypes st) (entities st) (duringOurModification st)
    (pendingEntityFlush st) v (entityData st) (inflight st)
    (immediates st) (timeouts st) (trace st).
Definition set_entityData v st :=
  mkState (objects st) (entityTypes st) (entities st) (duringOurModification st)
    (pendingEntityFlush st) (started st) v (inflight st)
    (immediates st) (timeouts st) (trace st).
Definition set_inflight v st :=
  mkState (objects st) (entityTypes st) (entities st) (duringOurModification st)
    (pendingEntityFlush st) (started st) (entityData st) v
    (immediates st) (timeouts st) (trace st).
Definition set_immediates v st :=
  mkState (objects st) (entityTypes st) (entities st) (duringOurModification st)
    (pendingEntityFlush st) (started st) (entityData st) (inflight st)
    v (timeouts st) (trace st).
Definition set_timeouts v st :=
  mkState (objects st) (entityTypes st) (entities st) (duringOurModification st)
    (pendingEntityFlush st) (started st) (entityData st) (inflight st)
    (immediates st) v (trace st).
Definition emit (ev : Event) st :=
  mkState (objects st) (entityTypes st) (entities st) (duringOurModification st)
    (pendingEntityFlush st) (started st) (entityData st) (inflight st)
    (immediates st) (timeouts st) (trace st ++ [ev]).

(** The registry just after its constructor (lines 139-147), attached to a
    store that holds [data]. *)
Definition init (data : list EntityData) : State :=
  {| objects := []; entityTypes := ∅; entities := ∅;
     duringOurModification := false; pendingEntityFlush := false;
     started := false; entityData := data; inflight := [];
     immediates := []; timeouts := []; trace := [] |}.

(** ** Operations of [EntityRegistry] *)

(** [markPendingFlush] (lines 246-252): set the flag, defer one callback. *)
Definition markPendingFlush (st : State) : State :=
  set_immediates (immediates st ++ [FlushCb]) (set_pendingEntityFlush true st).

(** The kill steps shared by [killEntity] (lines 208-211) and the loop body
    of [killAllEntities] (lines 221-224), for a key that is not an inherited
    name: for those, [k in this.entities] holds of a key that is not live
    and line 211 throws. *)
Definition killSteps (k : string) (st : State) : State :=
  match entities st !! k with
  | Some v =>
      let st := set_objects (alter (set_killed true) v (objects st)) st in
      let st := set_entities (delete k (entities st)) st in
      emit (EvOnKill v) st
  | None => st
  end.

(** [killEntity] (lines 206-214). *)
Definition killEntity (i : string) (st : State) : State :=
  markPendingFlush (killSteps i st).

(** [killAllEntities] (lines 219-227); a key deleted before its turn would
    be skipped by [for ... in]. *)
Definition killAllEntities (st : State) : State :=
  markPendingFlush
    (foldl (fun s k => killSteps k s) st (map_to_list (entities st)).*1).

(** The id loop of [newEntity] (lines 179-184): [nid] is the candidate,
    [idn] its number.  [fuel] bounds the iterations. *)
Fixpoint idLoop (fuel : nat) (ents : gmap string nat) (idn : nat)
    (nid : string) : option string :=
  match ents !! nid with
  | None => Some nid
  | Some _ =>
      match fuel with
      | O => None
      | S fuel' => idLoop fuel' ents (S idn) (pretty (S idn))
      end
  end.

Definition freshId (ents : gmap string nat) : option string :=
  idLoop (size ents) ents 0 "0".

(** The property names a plain object inherits from [Object.prototype]. *)
Definition objectPrototypeKeys : list string :=
  ["constructor"; "hasOwnProperty"; "isPrototypeOf"; "propertyIsEnumerable";
   "toLocaleString"; "toString"; "valueOf"; "__proto__";
   "__defineGetter__"; "__defineSetter__"; "__lookupGetter__";
   "__lookupSetter__"].

(** [newEntity] (lines 165-201), up to and including the factory call.  The
    promise of the factory stays in [inflight] until it settles.  For a
    type that has no factory but is an inherited name, line 172 finds the
    inherited value and line 175 calls it: the call, or [.then] on what it
    returns, throws inside the promise executor, which rejects the promise;
    nothing is logged. *)
Definition newEntity (data : EntityData) (st : State) : State :=
  if started st then
    if bool_decide (d_type data ∈ entityTypes st) then
      emit (EvFactory data) (set_inflight (inflight st ++ [data]) st)
    else if bool_decide (d_type data ∈ objectPrototypeKeys) then
      emit EvRejected st
    else
      emit EvRejected
        (emit (EvLog ("invalid entity type " +:+ d_type data +:+ " was in registry")) st)
  else emit EvRejected st.

(** Lines 188-191 for the object [r], whose [id] is [nid]. *)
Definition insertAs (nid : string) (r : nat) (st : State) : State :=
  let st := killEntity nid st in
  let st := set_entities (<[nid := r]> (entities st)) st in
  let st := markPendingFlush st in
  emit (EvResolved r) st.

(** The fulfilment callback of [newEntity] (lines 176-192) for the heap
    object [r] the factory resolved with: an object without [id] gets the
    generated one written into it (line 185), then the object is
    inserted. *)
Definition newEntityThenAt (r : nat) (st : State) : State :=
  match objects st !! r with
  | Some newEnt =>
      match id newEnt with
      | Some i => insertAs i r st
      | None =>
          match freshId (entities st) with
          | Some nid =>
              insertAs nid r
                (set_objects (alter (set_id nid) r (objects st)) st)
          | None => st (* the id loop ran out of fuel: see [freshId_total] *)
          end
      end
  | None => st
  end.

(** The fulfilment callback for an object [newEnt] that enters the heap as
    the promise resolves. *)
Definition newEntityThen (newEnt : Entity) (st : State) : State :=
  newEntityThenAt (length (objects st))
    (set_objects (objects st ++ [newEnt]) st).

(** The rejection callback of [newEntity] (lines 192-195). *)
Definition newEntityCatch (st : State) : State :=
  emit EvRejected (emit (EvLog "entity failed to load") st).

(** The [k]-th pending factory promise settles: with an object, or with a
    rejection. *)
Definition settle (k : nat) (outcome : option Entity) (st : State) : State :=
  match inflight st !! k with
  | Some _ =>
      let st := set_inflight (delete k (inflight st)) st in
      match outcome with
      | Some newEnt => newEntityThen newEnt st
      | None => newEntityCatch st
      end
  | None => st
  end.

(** The factory of the [k]-th pending call runs the constructor of the
    class, [new Entity(client, i, data)] (lines 44-60): the object enters
    the heap and, when its kill time is truthy, its first expiry check is
    deferred with [setImmediate]. *)
Definition construct (k : nat) (now : Z) (i : string) (st : State) : State :=
  match inflight st !! k with
  | Some data =>
      let r := length (objects st) in
      let st := set_objects (objects st ++ [Entity_new now i data]) st in
      if Entity_new_defers_check data
      then set_immediates (immediates st ++ [CheckCb r]) st
      else st
  | None => st
  end.

(** The [k]-th pending factory promise resolves with the heap object
    [r]. *)
Definition settleWith (k r : nat) (st : State) : State :=
  match inflight st !! k, objects st !! r with
  | Some _, Some _ =>
      newEntityThenAt r (set_inflight (delete k (inflight st)) st)
  | _, _ => st
  end.

(** [resetEntities] (lines 232-239). *)
Definition resetEntities (st : State) : State :=
  if started st then
    let st := emit EvReset st in
    let st := killAllEntities st in
    let st := foldl (fun s entity => newEntity entity s) st (entityData st) in
    set_pendingEntityFlush false st
  else st.

(** The change handler the constructor registers (lines 142-146). *)
Definition onModify (st : State) : State :=
  if started st then
    if duringOurModification st then st else resetEntities st
  else st.

(** Modelled from the spec: [DynamicData.modify] of src/dynamic-data.ts,
    which is not part of the sources.  It applies the mutator to the
    snapshot and, before it returns, invokes the change handlers. *)
Definition DynamicData_modify (mutator : list EntityData -> list EntityData)
    (st : State) : State :=
  onModify (set_entityData (mutator (entityData st)) st).

(** The mutator of [saveToDynamicData] (lines 262-264): empty the array,
    then push the save data of every live entity. *)
Definition saveMutator (st : State) (d : list EntityData) : list EntityData :=
  drop (length d) d
  ++ omap (fun kv => toSaveData <$> objects st !! kv.2) (map_to_list (entities st)).

(** [saveToDynamicData] (lines 257-268). *)
Definition saveToDynamicData (st : State) : State :=
  if started st then
    let st := set_duringOurModification true st in
    let st := DynamicData_modify (saveMutator st) (emit EvModify st) in
    let st := set_duringOurModification false st in
    set_pendingEntityFlush false st
  else st.

(** [start] (lines 155-160). *)
Definition start (st : State) : State :=
  if started st then st else resetEntities (set_started true st).

(** The callback deferred by [markPendingFlush] (lines 248-251). *)
Definition flushCallback (st : State) : State :=
  if pendingEntityFlush st then saveToDynamicData st else st.

(** ** Self-expiry (lines 66-78) *)

Section ExpiryCheck.
(** [kill r] is the [kill()] bound to object [r] by its subclass; the base
    class only declares it (lines 84-86). *)
Variable kill : nat -> State -> State.

(** [entityCheckIfShouldKill] run on object [r]; [now] is the value of
    [new Date().getTime()]. *)
Definition entityCheckIfShouldKill (now : Z) (r : nat) (st : State) : State :=
  match objects st !! r with
  | Some this =>
      if killed this then st
      else if (killTime this =? 0)%Z then st
      else if (now >=? killTime this)%Z then
        let st := kill r st in
        set_timeouts (timeouts st ++ [(CheckCb r, 1000%Z)]) st
      else
        set_timeouts (timeouts st ++ [(CheckCb r, (killTime this - now)%Z)]) st
  | None => st
  end.
End ExpiryCheck.

(** Modelled from the spec: [CCBotEntity.kill] of src/ccbot.ts, which is
    not part of the sources.  The owner binds it to its own
    [killEntity(this.id)]; on a killed entity it does nothing. *)
Definition boundKill (r : nat) (st : State) : State :=
  match objects st !! r with
  | Some this =>
      if killed this then st
      else killEntity (default "undefined" (id this)) st
  | None => st
  end.

(** ** The event loop and the steps of a run *)

Definition runCallback (now : Z) (cb : Callback) (st : State) : State :=
  match cb with
  | FlushCb => flushCallback st
  | CheckCb r => entityCheckIfShouldKill boundKill now r st
  end.

(** One turn of the [setImmediate] queue: the callbacks queued so far run
    in order; what they defer waits for the next turn. *)
Definition runImmediates (now : Z) (st : State) : State :=
  foldl (fun s cb => runCallback now cb s) (set_immediates [] st) (immediates st).

Inductive Op :=
  | OpRegister (t : string)             (* entityTypes[t] = loader *)
  | OpStart
  | OpNewEntity (data : EntityData)
  | OpSettle (k : nat) (outcome : option Entity)
                                        (* a promise settles: rejection, or
                                           an object that enters the heap *)
  | OpConstruct (k : nat) (now : Z) (i : string)
                                        (* a factory runs new Entity(c, i, data) *)
  | OpSettleWith (k r : nat)            (* a promise resolves with object r *)
  | OpKillEntity (i : string)
  | OpKillAllEntities
  | OpResetEntities
  | OpMarkPendingFlush
  | OpSaveToDynamicData
  | OpStoreModify (d : list EntityData) (* somebody else writes the store *)
  | OpTick (now : Z)                    (* the setImmediate queue runs *)
  | OpCheck (r : nat) (now : Z).        (* an armed expiry check fires *)

Definition exec (op : Op) (st : State) : State :=
  match op with
  | OpRegister t => set_entityTypes ({[ t ]} ∪ entityTypes st) st
  | OpStart => start st
  | OpNewEntity data => newEntity data st
  | OpSettle k outcome => settle k outcome st
  | OpConstruct k now i => construct k now i st
  | OpSettleWith k r => settleWith k r st
  | OpKillEntity i => killEntity i st
  | OpKillAllEntities => killAllEntities st
  | OpResetEntities => resetEntities st
  | OpMarkPendingFlush => markPendingFlush st
  | OpSaveToDynamicData => saveToDynamicData st
  | OpStoreModify d => DynamicData_modify (fun _ => d) st
  | OpTick now => runImmediates now st
  | OpCheck r now => entityCheckIfShouldKill boundKill now r st
  end.

Definition run (ops : list Op) (st : State) : State :=
  foldl (fun s op => exec op s) st ops.

(** Number of calls into the store's mutation entry point. *)
Definition isModify (ev : Event) : bool :=
  match ev with EvModify => true | _ => false end.

Definition modifyCalls (st : State) : nat :=
  length (filter (fun ev => isModify ev = true) (trace st)).

(** ** Scenario A of the specification *)

Definition recordX : EntityData := mkEntityData "x" (Some 100%Z) None ∅.

Definition entityNoId : Entity :=
  {| killed := false; id := None; type := "x";
     createTime := 100%Z; killTime := 0%Z |}.

Definition scenarioA : State :=
  run [OpRegister "x"; OpStart; OpSettle 0 (Some entityNoId)] (init [recordX]).

(** ** Vocabulary of the statements *)

(** The events one record of a reset causes at once: the factory call when
    its type is registered, the log line and the rejection otherwise. *)
Definition attemptEvents (types : gset string) (d : EntityData) : list Event :=
  if bool_decide (d_type d ∈ types) then [EvFactory d]
  else if bool_decide (d_type d ∈ objectPrototypeKeys) then [EvRejected]
  else [EvLog ("invalid entity type " +:+ d_type d +:+ " was in registry");
        EvRejected].

Definition isOnKill (ev : Event) : Prop :=
  match ev with EvOnKill _ => True | _ => False end.

(** What holds of a registry that was never started. *)
Definition prestart (st : State) : Prop :=
  started st = false ∧ entities st = ∅ ∧ objects st = [] ∧ inflight st = []
  ∧ Forall (fun ev => ev = EvRejected) (trace st).

(** A started registry at rest: nothing live, nothing pending. *)
Definition quiet : State := runImmediates 0 (start (init [])).

(** The state after [newEntity] was called on each record of [ds] in a
    started registry: only the pending factory calls and the trace grow. *)
Definition withAttempts (ds : list EntityData) (st : State) : State :=
  mkState (objects st) (entityTypes st) (entities st) (duringOurModification st)
    (pendingEntityFlush st) (started st) (entityData st)
    (inflight st ++ filter (fun d => d_type d ∈ entityTypes st) ds)
    (immediates st) (timeouts st)
    (trace st ++ concat (map (attemptEvents (entityTypes st)) ds)).


(** An id or type name that is not inherited from [Object.prototype]. *)
Definition plainKey (k : string) : Prop :=
  bool_decide (k ∈ objectPrototypeKeys) = false.

(** Operations whose ids and type names are not inherited names: on these
    the kill steps are the code's. *)
Definition plainOp (op : Op) : Prop :=
  match op with
  | OpRegister t => plainKey t
  | OpKillEntity i => plainKey i
  | OpConstruct _ _ i => plainKey i
  | OpSettle _ (Some e) => ∀ i, id e = Some i → plainKey i
  | _ => True
  end.

(** A run each step of which satisfies [P] in the state it starts from. *)
Fixpoint runWith (P : State → Op → Prop) (ops : list Op) (st : State) : Prop :=
  match ops with
  | [] => True
  | op :: ops' => P st op ∧ runWith P ops' (exec op st)
  end.

(** A registry process that starts on the snapshot [data] with factories
    for [types]. *)
Definition reload (types : gset string) (data : list EntityData) : State :=
  start (set_entityTypes types (init data)).

(** The live map points at entity objects that are not killed, and no
    object is live under two ids. *)
Definition liveInv (st : State) : Prop :=
  (∀ i r, entities st !! i = Some r →
          ∃ e, objects st !! r = Some e ∧ killed e = false)
  ∧ (∀ i j r, entities st !! i = Some r → entities st !! j = Some r → i = j).

(** Every object of [st] is still there in [st'], and killed if it was. *)
Definition keepsKilled (st st' : State) : Prop :=
  ∀ r e, objects st !! r = Some e →
         ∃ e', objects st' !! r = Some e' ∧ (killed e = true → killed e' = true).

Definition grows (st st' : State) : Prop :=
  (liveInv st → liveInv st') ∧ keepsKilled st st'.

(** A factory resolves with an object it has just made: its [killed] field
    still has its initial value (line 23). *)
Definition freshResult (op : Op) : Prop :=
  match op with
  | OpSettle _ (Some e) => killed e = false
  | OpSettleWith _ _ => False
  | _ => True
  end.

(** The heap object [r] is neither killed nor live. *)
Definition freshObject (st : State) (r : nat) : Prop :=
  (∀ e, objects st !! r = Some e → killed e = false)
  ∧ ∀ i, entities st !! i ≠ Some r.

(** A factory resolves with an object that is neither killed nor live at
    that time. *)
Definition freshAt (st : State) (op : Op) : Prop :=
  match op with
  | OpSettle _ (Some e) => killed e = false
  | OpSettleWith _ r => freshObject st r
  | _ => True
  end.

(** What the kill steps leave alone. *)
Definition killFrame (st st' : State) : Prop :=
  entityTypes st' = entityTypes st
  ∧ duringOurModification st' = duringOurModification st
  ∧ pendingEntityFlush st' = pendingEntityFlush st
  ∧ started st' = started st
  ∧ entityData st' = entityData st
  ∧ inflight st' = inflight st
  ∧ immediates st' = immediates st
  ∧ timeouts st' = timeouts st
  ∧ ∃ kills, Forall isOnKill kills ∧ trace st' = trace st ++ kills.


(** Two states that differ at most in the armed timers. *)
Definition sameButTimeouts (st st' : State) : Prop :=
  objects st' = objects st ∧ entityTypes st' = entityTypes st
  ∧ entities st' = entities st
  ∧ duringOurModification st' = duringOurModification st
  ∧ pendingEntityFlush st' = pendingEntityFlush st
  ∧ started st' = started st ∧ entityData st' = entityData st
  ∧ inflight st' = inflight st ∧ immediates st' = immediates st
  ∧ trace st' = trace st.

(** ** Concrete runs *)

Definition unknownRecord : EntityData := mkEntityData "unknown" None None ∅.


(** An entity that expires at time 50, as its factory resolves with it. *)
Definition entityExpiring : Entity :=
  {| killed := false; id := None; type := "x";
     createTime := 100%Z; killTime := 50%Z |}.

Definition scenarioD : State :=
  run [OpRegister "x"; OpStart; OpSettle 0 (Some entityExpiring)] (init [recordX]).


Definition lifeAndDeath : list Op :=
  [OpRegister "x"; OpStart; OpSettle 0 (Some entityNoId); OpKillEntity "0";
   OpTick 0].

Definition beforeStart : list Op :=
  [OpRegister "x"; OpKillEntity "a"; OpNewEntity recordX; OpKillAllEntities;
   OpSaveToDynamicData; OpTick 0].

(** A construction whose entity is past its kill time when it is made. *)
Definition expiredRecord : EntityData :=
  mkEntityData "x" (Some 100%Z) (Some 50%Z) ∅.

(** A started registry at rest with a factory for "x". *)
Definition readyX : list Op := [OpRegister "x"; OpStart; OpTick 0].

(** Within one turn: a kill, and a construction of an expired entity by
    the constructor of the class, resolved at once. *)
Definition expiryBurst : list Op :=
  [OpKillEntity "a"; OpNewEntity expiredRecord; OpConstruct 0 100 "e";
   OpSettleWith 0 0].

(** A factory that resolves with the same object twice. *)
Definition reinsertion : list Op :=
  [OpRegister "x"; OpStart; OpConstruct 0 0 "a"; OpSettleWith 0 0;
   OpNewEntity recordX; OpSettleWith 0 0].


(** A record whose type is a name every object inherits. *)
Definition toStringRecord : EntityData := mkEntityData "toString" None None ∅.

(** ** The caller, and further vocabulary *)

(** [registerAllEntities] of src/all-entities.ts (lines 11-19), on the
    registry [cr.entities]; the loaders themselves are not modelled, only
    which types get one. *)
Definition registerAllEntities (safety : bool) (st : State) : State :=
  let st := exec (OpRegister "date-activity") st in
  let st := exec (OpRegister "page-switcher") st in
  let st :=
    if negb safety then
      let st := exec (OpRegister "old-behaviors") st in
      exec (OpRegister "greeter") st
    else st in
  exec (OpRegister "random-activity") st.

(** The objects whose [onKill()] hook has run, in the order of the calls. *)
Definition onKillOf (ev : Event) : option nat :=
  match ev with EvOnKill r => Some r | _ => None end.

Definition killLog (st : State) : list nat := omap onKillOf (trace st).

(** Steps in which the object a factory resolves with satisfies [ok], for
    one that enters the heap then, or [okAt], for one that is in it. *)
Definition okOp (ok : Entity -> Prop) (okAt : State -> nat -> Prop)
    (st : State) (op : Op) : Prop :=
  match op with
  | OpSettle _ (Some e) => ok e
  | OpSettleWith _ r => okAt st r
  | _ => True
  end.

(** Every live entry points at an object that carries the entry's key as
    its [id]. *)
Definition idInv (st : State) : Prop :=
  ∀ i r, entities st !! i = Some r →
         ∃ e, objects st !! r = Some e ∧ id e = Some i.

(** Two views of one object, the later one second: an [id] it had is
    kept, and so are [type], [createTime] and [killTime]. *)
Definition sameData (e e' : Entity) : Prop :=
  (∀ i, id e = Some i → id e' = Some i)
  ∧ type e' = type e ∧ createTime e' = createTime e
  ∧ killTime e' = killTime e.

(** The objects of [st] are still there in [st'], with the same data. *)
Definition keepsData (st st' : State) : Prop :=
  ∀ r e, objects st !! r = Some e →
         ∃ e', objects st' !! r = Some e' ∧ sameData e e'.


(** The store holds exactly the save data of the live entities. *)
Definition storeIsLiveSet (st : State) : Prop :=
  Forall2 (fun kv rec => ∃ e, objects st !! kv.2 = Some e
                             ∧ id e = Some kv.1 ∧ rec = toSaveData e)
    (map_to_list (entities st)) (entityData st).

(** What holds during a turn of the event loop that began, after [base]
    store writes, with a flush pending, while the callbacks [rest] are
    still to run. *)
Definition tickInv (base : nat) (rest : list Callback) (st : State) : Prop :=
  started st = true
  ∧ idInv st
  ∧ (pendingEntityFlush st = false → storeIsLiveSet st)
  ∧ (pendingEntityFlush st = true → FlushCb ∈ immediates st ∨ FlushCb ∈ rest)
  ∧ base ≤ modifyCalls st
  ∧ (base < modifyCalls st ∨ (pendingEntityFlush st = true ∧ FlushCb ∈ rest)).

(** ** Further concrete runs *)

Definition opsA : list Op :=
  [OpRegister "x"; OpStart; OpSettle 0 (Some entityNoId)].

(** A started registry whose one construction is still under way. *)
Definition pendingA : State := run [OpRegister "x"; OpStart] (init [recordX]).

(** An entity that comes with the id "0". *)
Definition entityZero : Entity :=
  {| killed := false; id := Some "0"; type := "x";
     createTime := 7%Z; killTime := 0%Z |}.

Definition greeterRecord : EntityData := mkEntityData "greeter" None None ∅.

(** The live ids are exactly the decimal forms of the numbers below [n]. *)
Definition denseIds (n : nat) (ents : gmap string nat) : Prop :=
  ∀ s, is_Some (ents !! s) ↔ ∃ j, j < n ∧ s = pretty j.

(** The fulfilment callbacks of several constructions, in the order in
    which their factories resolve. *)
Definition resolveAll (es : list Entity) (st : State) : State :=
  foldl (fun s e => newEntityThen e s) st es.

Definition entityNoId' : Entity :=
  {| killed := false; id := None; type := "x";
     createTime := 200%Z; killTime := 0%Z |}.

(** Projections of the setters. *)
Ltac st_simpl :=
  cbn [objects entityTypes entities duringOurModification pendingEntityFlush
       started entityData inflight immediates timeouts trace
       set_objects set_entityTypes set_entities set_duringOurModification
       set_pendingEntityFlush set_started set_entityData set_inflight
       set_immediates set_timeouts emit markPendingFlush].

(** * Properties *)

(** ** The base class *)

Lemma or_zero_Some (k : Z) : or_zero (Some k) = k.
Proof. unfold or_zero. destruct (Z.eqb_spec k 0); congruence. Qed.

Lemma toSaveData_fields (e : Entity) :
  fieldNames (toSaveData e) = {[ "type"; "createTime"; "killTime" ]}.
Proof. unfold fieldNames, toSaveData; simpl. rewrite dom_empty_L. set_solver. Qed.

Lemma toSaveData_no_id (e : Entity) : "id" ∉ fieldNames (toSaveData e).
Proof.
  rewrite toSaveData_fields, !elem_of_union, !elem_of_singleton.
  intros [[H|H]|H]; discriminate H.
Qed.

Lemma Entity_new_defers_check_spec (now : Z) (i : string) (data : EntityData) :
  Entity_new_defers_check data = negb (killTime (Entity_new now i data) =? 0)%Z.
Proof. reflexivity. Qed.

(** C7. Round trip through the base class: an entity rebuilt by the
    constructor from the save data of an entity [e] has the same save data
    as [e], whatever id and clock the rebuild uses; [type], [createTime] and
    [killTime] are carried over, and an entity built from a record takes the
    record's [type] and [createTime]. *)
Theorem C7_round_trip (e : Entity) (now' : Z) (i' : string) :
  let e' := Entity_new now' i' (toSaveData e) in
  toSaveData e' = toSaveData e
  ∧ type e' = type e ∧ createTime e' = createTime e ∧ killTime e' = killTime e
  ∧ ∀ now i r,
      type (Entity_new now i r) = d_type r
      ∧ (∀ t, d_createTime r = Some t → createTime (Entity_new now i r) = t)
      ∧ toSaveData (Entity_new now' i' (toSaveData (Entity_new now i r)))
        = toSaveData (Entity_new now i r).
Proof.
  assert (H : ∀ x, toSaveData (Entity_new now' i' (toSaveData x)) = toSaveData x).
  { intros x. unfold toSaveData, Entity_new. cbn -[or_zero].
    by rewrite or_zero_Some. }
  simpl. repeat split; auto.
  - apply or_zero_Some.
  - intros t Ht. by rewrite Ht.
Qed.

Lemma C7_round_trip_witness :
  createTime (Entity_new 5 "a" (mkEntityData "x" (Some 100%Z) None ∅)) = 100%Z.
Proof.
  destruct (C7_round_trip entityNoId 0 "a") as (_ & _ & _ & _ & H).
  destruct (H 5%Z "a" (mkEntityData "x" (Some 100%Z) None ∅)) as (_ & Hc & _).
  apply Hc. reflexivity.
Defined.

(** C8. One run of the expiry check on an entity [this] whose kill time is
    not zero: a killed entity returns at once and arms nothing; when the
    clock has reached the kill time the bound [kill()] runs and then one
    more check is armed, 1000 ms later; otherwise one more check is armed,
    after exactly [killTime - now], and nothing else changes. *)
Theorem C8_expiry_check (kill : nat → State → State) (now : Z) (r : nat)
    (st : State) (this : Entity) :
  objects st !! r = Some this →
  killTime this ≠ 0%Z →
  (killed this = true → entityCheckIfShouldKill kill now r st = st)
  ∧ (killed this = false → (killTime this ≤ now)%Z →
       timeouts (entityCheckIfShouldKill kill now r st)
       = timeouts (kill r st) ++ [(CheckCb r, 1000%Z)]
       ∧ sameButTimeouts (kill r st) (entityCheckIfShouldKill kill now r st))
  ∧ (killed this = false → (now < killTime this)%Z →
       timeouts (entityCheckIfShouldKill kill now r st)
       = timeouts st ++ [(CheckCb r, (killTime this - now)%Z)]
       ∧ sameButTimeouts st (entityCheckIfShouldKill kill now r st)).
Proof.
  intros Hr Hk. unfold entityCheckIfShouldKill. rewrite Hr.
  destruct (Z.eqb_spec (killTime this) 0) as [|_]; [done|].
  split; [by intros ->|]. split; intros -> Hc.
  - destruct (Z.geb_spec now (killTime this)); [|lia].
    split; [reflexivity|]. by repeat split.
  - destruct (Z.geb_spec now (killTime this)); [lia|].
    split; [reflexivity|]. by repeat split.
Qed.

(** ** The reentrancy guard *)

Lemma onModify_guarded (st : State) :
  duringOurModification st = true → onModify st = st.
Proof. intros H. unfold onModify. rewrite H. by destruct (started st). Qed.

Lemma onModify_not_started (st : State) :
  started st = false → onModify st = st.
Proof. intros H. unfold onModify. by rewrite H. Qed.

Lemma saveToDynamicData_started (st : State) :
  started st = true →
  saveToDynamicData st
  = set_pendingEntityFlush false
      (set_duringOurModification false
         (set_entityData (saveMutator st (entityData st))
            (set_duringOurModification true (emit EvModify st)))).
Proof.
  intros H. unfold saveToDynamicData. rewrite H.
  unfold DynamicData_modify. by rewrite onModify_guarded.
Qed.

Lemma saveToDynamicData_not_started (st : State) :
  started st = false → saveToDynamicData st = st.
Proof. intros H. unfold saveToDynamicData. by rewrite H. Qed.

(** C1. Self-origin suppression: the change handler does nothing while the
    guard is set, and a save of a started registry is one call into the
    store that replaces the snapshot and clears the two flags: no
    [resetEntities] runs, no entity is killed or constructed. *)
Theorem C1_self_origin_suppression (st : State) :
  (duringOurModification st = true → onModify st = st)
  ∧ (started st = true →
       trace (saveToDynamicData st) = trace st ++ [EvModify]
       ∧ entities (saveToDynamicData st) = entities st
       ∧ objects (saveToDynamicData st) = objects st
       ∧ inflight (saveToDynamicData st) = inflight st
       ∧ immediates (saveToDynamicData st) = immediates st
       ∧ entityData (saveToDynamicData st) = saveMutator st (entityData st)
       ∧ duringOurModification (saveToDynamicData st) = false
       ∧ pendingEntityFlush (saveToDynamicData st) = false).
Proof.
  split; [apply onModify_guarded|].
  intros H. by rewrite saveToDynamicData_started.
Qed.

(** ** Before [start()] *)

Lemma prestart_init (data : list EntityData) : prestart (init data).
Proof. repeat split. constructor. Qed.

Lemma prestart_callback (now : Z) (cb : Callback) (st : State) :
  prestart st → runCallback now cb st = st.
Proof.
  intros (Hs & _ & Ho & _). destruct cb as [|r]; simpl.
  - unfold flushCallback. rewrite saveToDynamicData_not_started by done.
    by destruct (pendingEntityFlush st).
  - unfold entityCheckIfShouldKill. by rewrite Ho.
Qed.

Lemma prestart_callbacks (now : Z) (cbs : list Callback) (st : State) :
  prestart st → foldl (fun s cb => runCallback now cb s) st cbs = st.
Proof.
  intros H. induction cbs as [|cb cbs IH]; simpl; [done|].
  by rewrite prestart_callback.
Qed.

Lemma prestart_exec (op : Op) (st : State) :
  op ≠ OpStart → prestart st → prestart (exec op st).
Proof.
  intros Hop H. pose proof H as (Hs & He & Ho & Hi & Ht).
  destruct op; simpl; try done.
  - unfold newEntity. rewrite Hs. repeat split; simpl; try done.
    apply Forall_app; split; [done | by repeat constructor].
  - unfold settle. by rewrite Hi.
  - unfold construct. by rewrite Hi.
  - unfold settleWith. by rewrite Hi.
  - unfold killEntity, killSteps. by rewrite He, lookup_empty.
  - unfold killAllEntities. by rewrite He, map_to_list_empty.
  - unfold resetEntities. by rewrite Hs.
  - by rewrite saveToDynamicData_not_started.
  - unfold DynamicData_modify. by rewrite onModify_not_started.
  - unfold runImmediates. by rewrite prestart_callbacks.
  - unfold entityCheckIfShouldKill. by rewrite Ho.
Qed.

Lemma prestart_run (ops : list Op) (st : State) :
  Forall (fun op => op ≠ OpStart) ops → prestart st → prestart (run ops st).
Proof.
  intros Hops. revert st. induction Hops as [|op ops Hop _ IH]; intros st H.
  - done.
  - simpl. apply IH. by apply prestart_exec.
Qed.

Lemma modifyCalls_rejected (st : State) :
  Forall (fun ev => ev = EvRejected) (trace st) → modifyCalls st = 0.
Proof.
  unfold modifyCalls. induction 1 as [|ev evs -> _ IH]; [done|].
  rewrite filter_cons_False; [done | simpl; congruence].
Qed.

(** C6. Before [start()]: [newEntity] only rejects, [resetEntities],
    [saveToDynamicData] and the change handler return the state as it is,
    and along any run without [start()] the registry stays not started with
    an empty live map, no entity object, no factory call in flight, no call
    into the store, and a trace made of rejections only. *)
Theorem C6_not_started (st : State) :
  (started st = false →
     (∀ data, newEntity data st = emit EvRejected st)
     ∧ resetEntities st = st
     ∧ saveToDynamicData st = st
     ∧ onModify st = st)
  ∧ ∀ (data : list EntityData) (ops : list Op),
      Forall (fun op => op ≠ OpStart) ops →
      let st' := run ops (init data) in
      started st' = false ∧ entities st' = ∅ ∧ objects st' = []
      ∧ inflight st' = [] ∧ modifyCalls st' = 0
      ∧ Forall (fun ev => ev = EvRejected) (trace st').
Proof.
  split.
  - intros H. repeat split.
    + intros data. unfold newEntity. by rewrite H.
    + unfold resetEntities. by rewrite H.
    + by apply saveToDynamicData_not_started.
    + by apply onModify_not_started.
  - intros data ops Hops.
    destruct (prestart_run ops (init data) Hops (prestart_init data))
      as (Hs & He & Ho & Hi & Ht).
    repeat split; try done. by apply modifyCalls_rejected.
Qed.

(** ** Killing *)

Lemma killFrame_refl (st : State) : killFrame st st.
Proof. repeat split. exists []. by rewrite app_nil_r. Qed.

Lemma killFrame_trans (a b c : State) :
  killFrame a b → killFrame b c → killFrame a c.
Proof.
  intros (H1 & H2 & H3 & H4 & H5 & H6 & H7 & H8 & k1 & Hk1 & Ht1)
         (G1 & G2 & G3 & G4 & G5 & G6 & G7 & G8 & k2 & Hk2 & Ht2).
  repeat split; try congruence.
  exists (k1 ++ k2). split; [by apply Forall_app|].
  by rewrite Ht2, Ht1, app_assoc.
Qed.

Lemma killSteps_frame (k : string) (st : State) : killFrame st (killSteps k st).
Proof.
  unfold killSteps. destruct (entities st !! k) as [v|]; [|apply killFrame_refl].
  repeat split. exists [EvOnKill v]. split; [by repeat constructor | done].
Qed.

Lemma killLoop_frame (ks : list string) (st : State) :
  killFrame st (foldl (fun s k => killSteps k s) st ks).
Proof.
  revert st. induction ks as [|k ks IH]; intros st; simpl.
  - apply killFrame_refl.
  - eapply killFrame_trans; [apply killSteps_frame | apply IH].
Qed.

Lemma killSteps_absent (i : string) (st : State) :
  entities st !! i = None → killSteps i st = st.
Proof. intros H. unfold killSteps. by rewrite H. Qed.

Lemma killSteps_entities (i : string) (st : State) :
  entities (killSteps i st) = delete i (entities st).
Proof.
  unfold killSteps. destruct (entities st !! i) eqn:H; simpl; [done|].
  by rewrite delete_id.
Qed.

Lemma killEntity_marks (i : string) (st : State) :
  immediates (killEntity i st) = immediates st ++ [FlushCb]
  ∧ pendingEntityFlush (killEntity i st) = true.
Proof.
  unfold killEntity. simpl.
  by destruct (killSteps_frame i st) as (_ & _ & _ & _ & _ & _ & -> & _).
Qed.

(** C3, amended. For an id that is not a name inherited from
    [Object.prototype]: [killEntity(id)] on an id that is not live leaves
    the live map, the entity objects and the trace as they are, and still
    marks a pending flush; on a live id it sets the entity's [killed],
    removes it from the live map, calls its [onKill()] and marks a pending
    flush; a second call with the same id only marks one more pending
    flush. *)
Theorem C3_killEntity (st : State) (i : string) :
  plainKey i →
  (entities st !! i = None →
     killEntity i st = markPendingFlush st
     ∧ entities (killEntity i st) = entities st
     ∧ objects (killEntity i st) = objects st
     ∧ trace (killEntity i st) = trace st)
  ∧ (∀ v e, entities st !! i = Some v → objects st !! v = Some e →
       entities (killEntity i st) = delete i (entities st)
       ∧ entities (killEntity i st) !! i = None
       ∧ (∃ e', objects (killEntity i st) !! v = Some e' ∧ killed e' = true)
       ∧ (∀ r, r ≠ v → objects (killEntity i st) !! r = objects st !! r)
       ∧ trace (killEntity i st) = trace st ++ [EvOnKill v])
  ∧ (killEntity i (killEntity i st) = markPendingFlush (killEntity i st)
     ∧ entities (killEntity i (killEntity i st)) = entities (killEntity i st)
     ∧ objects (killEntity i (killEntity i st)) = objects (killEntity i st)
     ∧ trace (killEntity i (killEntity i st)) = trace (killEntity i st)
     ∧ immediates (killEntity i (killEntity i st))
       = immediates (killEntity i st) ++ [FlushCb])
  ∧ pendingEntityFlush (killEntity i st) = true
  ∧ immediates (killEntity i st) = immediates st ++ [FlushCb].
Proof.
  intros _.
  assert (Habsent : ∀ s, entities s !! i = None →
            killEntity i s = markPendingFlush s
            ∧ entities (killEntity i s) = entities s
            ∧ objects (killEntity i s) = objects s
            ∧ trace (killEntity i s) = trace s).
  { intros s H. unfold killEntity. by rewrite killSteps_absent. }
  split; [apply Habsent|]. split; [|split; [|split]].
  - intros v e H He. unfold killEntity, killSteps. rewrite H. st_simpl.
    split; [reflexivity|]. split; [apply lookup_delete_eq|]. split; [|split].
    + exists (set_killed true e). by rewrite list_lookup_alter_eq, He.
    + intros r Hr. by rewrite list_lookup_alter_ne.
    + reflexivity.
  - assert (Hgone : entities (killEntity i st) !! i = None).
    { unfold killEntity. st_simpl. rewrite killSteps_entities.
      apply lookup_delete_eq. }
    destruct (Habsent _ Hgone) as (E & He & Ho & Ht).
    split; [done|]. split; [done|]. split; [done|]. split; [done|].
    apply killEntity_marks.
  - apply killEntity_marks.
  - apply killEntity_marks.
Qed.

(** C3 as stated fails: killing an id that is not live, and not an
    inherited name either, changes the state of a registry at rest (the
    flush flag is set and a callback is deferred), a store write follows at
    the next turn of the event loop, and a second kill of the same id
    changes the state again. *)
Lemma C3_counterexample :
  plainKey "ghost"
  ∧ entities quiet !! "ghost" = None
  ∧ killEntity "ghost" quiet ≠ quiet
  ∧ modifyCalls (runImmediates 0 quiet) = 0
  ∧ modifyCalls (runImmediates 0 (killEntity "ghost" quiet)) = 1
  ∧ killEntity "ghost" (killEntity "ghost" quiet) ≠ killEntity "ghost" quiet.
Proof.
  split; [by vm_compute|]. split; [by vm_compute|]. split.
  { intros H. apply (f_equal pendingEntityFlush) in H. vm_compute in H. discriminate. }
  split; [by vm_compute|]. split; [by vm_compute|].
  intros H. apply (f_equal (fun s => length (immediates s))) in H.
  vm_compute in H. discriminate.
Qed.

Lemma C3_killEntity_witness :
  killEntity "ghost" quiet = markPendingFlush quiet.
Proof.
  destruct (C3_killEntity quiet "ghost") as [H _]; [vm_compute; reflexivity|].
  destruct H as [H _]; [vm_compute; reflexivity | exact H].
Defined.

(** ** Construction and its failures *)

Lemma newEntity_attempt (d : EntityData) (st : State) :
  started st = true → newEntity d st = withAttempts [d] st.
Proof.
  intros H. unfold newEntity. rewrite H.
  unfold withAttempts, attemptEvents. simpl. rewrite app_nil_r.
  destruct (decide (d_type d ∈ entityTypes st)) as [Hin|Hin].
  - rewrite bool_decide_eq_true_2 by done.
    by rewrite filter_cons_True, filter_nil by done.
  - rewrite !(bool_decide_eq_false_2 (d_type d ∈ entityTypes st)) by done.
    rewrite filter_cons_False, filter_nil, app_nil_r by done.
    destruct (bool_decide (d_type d ∈ objectPrototypeKeys)); [done|].
    unfold emit; simpl. by rewrite <- app_assoc.
Qed.

Lemma withAttempts_cons (d : EntityData) (ds : list EntityData) (st : State) :
  withAttempts ds (withAttempts [d] st) = withAttempts (d :: ds) st.
Proof.
  unfold withAttempts; simpl. rewrite app_nil_r.
  rewrite <- !app_assoc. f_equal.
  destruct (decide (d_type d ∈ entityTypes st)).
  - by rewrite !filter_cons_True, filter_nil by done.
  - by rewrite !filter_cons_False, filter_nil by done.
Qed.

Lemma newEntityLoop_attempts (ds : list EntityData) (st : State) :
  started st = true →
  foldl (fun s entity => newEntity entity s) st ds = withAttempts ds st.
Proof.
  revert st. induction ds as [|d ds IH]; intros st H; simpl.
  - unfold withAttempts; simpl. rewrite filter_nil, !app_nil_r. by destruct st.
  - rewrite newEntity_attempt by done. rewrite IH by done.
    apply withAttempts_cons.
Qed.

Lemma killAllEntities_frame (st : State) :
  entityTypes (killAllEntities st) = entityTypes st
  ∧ started (killAllEntities st) = started st
  ∧ entityData (killAllEntities st) = entityData st
  ∧ inflight (killAllEntities st) = inflight st
  ∧ immediates (killAllEntities st) = immediates st ++ [FlushCb]
  ∧ pendingEntityFlush (killAllEntities st) = true
  ∧ ∃ kills, Forall isOnKill kills ∧ trace (killAllEntities st) = trace st ++ kills.
Proof.
  unfold killAllEntities.
  destruct (killLoop_frame (map_to_list (entities st)).*1 st)
    as (H1 & H2 & H3 & H4 & H5 & H6 & H7 & H8 & H9).
  simpl. rewrite H1, H4, H5, H6, H7. by repeat split.
Qed.

Lemma resetEntities_started (st : State) :
  started st = true →
  resetEntities st
  = set_pendingEntityFlush false
      (withAttempts (entityData st) (killAllEntities (emit EvReset st))).
Proof.
  intros H. unfold resetEntities. rewrite H.
  destruct (killAllEntities_frame (emit EvReset st)) as (_ & Hs & Hd & _).
  rewrite newEntityLoop_attempts by (by rewrite Hs).
  by rewrite Hd.
Qed.

Lemma modifyCalls_emit (ev : Event) (st : State) :
  isModify ev = false → modifyCalls (emit ev st) = modifyCalls st.
Proof.
  intros H. unfold modifyCalls; simpl.
  rewrite filter_app, filter_cons_False, filter_nil, app_nil_r by congruence.
  reflexivity.
Qed.

(** C5. In a started registry, [newEntity] on a record whose type has no
    factory rejects, and leaves the live map, the entity objects, the
    pending constructions, the flush flag, the deferred callbacks and the
    count of store writes as they are; it logs the type first, except for
    the names every object inherits ([toString], [constructor], ...), for
    which line 172 finds the inherited value and nothing is logged.  A
    rejected factory promise logs and rejects, with the same frame.  A
    reset attempts every record of the snapshot in order, whatever became
    of the others: after the kills, the trace holds for each record its
    factory call or its rejection, and every record with a factory is in
    flight. *)
Theorem C5_failure_semantics (st : State) :
  started st = true →
  (∀ data, d_type data ∉ entityTypes st →
     (d_type data ∉ objectPrototypeKeys →
        newEntity data st
        = emit EvRejected
            (emit (EvLog ("invalid entity type " +:+ d_type data +:+ " was in registry")) st))
     ∧ (d_type data ∈ objectPrototypeKeys →
        newEntity data st = emit EvRejected st)
     ∧ last (trace (newEntity data st)) = Some EvRejected
     ∧ entities (newEntity data st) = entities st
     ∧ objects (newEntity data st) = objects st
     ∧ inflight (newEntity data st) = inflight st
     ∧ pendingEntityFlush (newEntity data st) = pendingEntityFlush st
     ∧ immediates (newEntity data st) = immediates st
     ∧ modifyCalls (newEntity data st) = modifyCalls st)
  ∧ (∀ k, k < length (inflight st) →
     trace (settle k None st)
     = trace st ++ [EvLog "entity failed to load"; EvRejected]
     ∧ inflight (settle k None st) = delete k (inflight st)
     ∧ entities (settle k None st) = entities st
     ∧ objects (settle k None st) = objects st
     ∧ pendingEntityFlush (settle k None st) = pendingEntityFlush st
     ∧ immediates (settle k None st) = immediates st
     ∧ modifyCalls (settle k None st) = modifyCalls st)
  ∧ (∃ kills, Forall isOnKill kills
     ∧ trace (resetEntities st)
       = trace st ++ [EvReset] ++ kills
         ++ concat (map (attemptEvents (entityTypes st)) (entityData st)))
  ∧ inflight (resetEntities st)
    = inflight st ++ filter (fun d => d_type d ∈ entityTypes st) (entityData st).
Proof.
  intros Hs. split; [|split; [|split]].
  - intros data Hd.
    assert (E1 : d_type data ∉ objectPrototypeKeys →
      newEntity data st
      = emit EvRejected
          (emit (EvLog ("invalid entity type " +:+ d_type data +:+ " was in registry")) st)).
    { intros Hp. unfold newEntity. rewrite Hs.
      by rewrite !bool_decide_eq_false_2. }
    assert (E2 : d_type data ∈ objectPrototypeKeys →
      newEntity data st = emit EvRejected st).
    { intros Hp. unfold newEntity. rewrite Hs.
      by rewrite bool_decide_eq_false_2, bool_decide_eq_true_2. }
    split; [done|]. split; [done|].
    destruct (decide (d_type data ∈ objectPrototypeKeys)) as [Hp|Hp].
    + rewrite (E2 Hp). repeat split; [|by apply modifyCalls_emit].
      cbn [trace emit]. apply last_snoc.
    + rewrite (E1 Hp). repeat split; [|by rewrite !modifyCalls_emit].
      cbn [trace emit]. apply last_snoc.
  - intros k Hk.
    destruct (lookup_lt_is_Some_2 (inflight st) k Hk) as [d Hd].
    assert (E : settle k None st
      = emit EvRejected
          (emit (EvLog "entity failed to load")
             (set_inflight (delete k (inflight st)) st))).
    { unfold settle. by rewrite Hd. }
    rewrite E. repeat split; [|by rewrite !modifyCalls_emit].
    cbn [trace emit set_inflight]. by rewrite <- app_assoc.
  - rewrite resetEntities_started by done.
    destruct (killAllEntities_frame (emit EvReset st))
      as (Ht & _ & _ & _ & _ & _ & kills & Hk & Htr).
    exists kills. split; [done|].
    unfold set_pendingEntityFlush, withAttempts. cbn [trace].
    rewrite Ht, Htr. cbn [trace entityTypes emit].
    by rewrite <- !app_assoc.
  - rewrite resetEntities_started by done.
    destruct (killAllEntities_frame (emit EvReset st)) as (Ht & _ & _ & Hi & _).
    unfold set_pendingEntityFlush, withAttempts. cbn [inflight].
    by rewrite Ht, Hi.
Qed.

(** ** What is persisted *)

Lemma saved_records (st : State) (d : EntityData) :
  d ∈ saveMutator st (entityData st) → ∃ e, d = toSaveData e.
Proof.
  unfold saveMutator. rewrite drop_all, app_nil_l, list_elem_of_omap.
  intros ([k r] & _ & H). simpl in H.
  destruct (objects st !! r) as [e|]; [|done].
  exists e. by injection H.
Qed.

(** C10. The save data of the base class has exactly the properties
    [type], [createTime] and [killTime], never [id]; so after a save by a
    started registry no record of the store has an [id], and when a
    registry is started again on that snapshot every record handed to a
    factory is without one. *)
Theorem C10_ids_not_persisted (st : State) :
  (∀ e, fieldNames (toSaveData e) = {[ "type"; "createTime"; "killTime" ]}
        ∧ "id" ∉ fieldNames (toSaveData e))
  ∧ (started st = true →
     let saved := entityData (saveToDynamicData st) in
     Forall (fun d => fieldNames d = {[ "type"; "createTime"; "killTime" ]}
                      ∧ "id" ∉ fieldNames d) saved
     ∧ ∀ types,
         entityData (reload types saved) = saved
         ∧ inflight (reload types saved)
           = filter (fun d => d_type d ∈ types) saved
         ∧ Forall (fun d => "id" ∉ fieldNames d) (inflight (reload types saved))).
Proof.
  split.
  { intros e. split; [apply toSaveData_fields | apply toSaveData_no_id]. }
  intros Hs. rewrite saveToDynamicData_started by done.
  cbn [entityData set_pendingEntityFlush set_duringOurModification set_entityData].
  assert (Hall : Forall (fun d => fieldNames d = {[ "type"; "createTime"; "killTime" ]}
                      ∧ "id" ∉ fieldNames d) (saveMutator st (entityData st))).
  { apply Forall_forall. intros d Hd.
    destruct (saved_records st d Hd) as [e ->].
    split; [apply toSaveData_fields | apply toSaveData_no_id]. }
  split; [exact Hall|].
  intros types. unfold reload, start. cbn [started set_entityTypes init].
  rewrite resetEntities_started by done.
  match goal with |- context [killAllEntities ?s] =>
    destruct (killAllEntities_frame s) as (Ht & _ & Hd & Hi & _) end.
  unfold set_pendingEntityFlush, withAttempts. cbn [entityData inflight].
  rewrite Ht, Hd, Hi. cbn. split; [done|]. split; [done|].
  apply Forall_forall. intros d Hd'.
  apply list_elem_of_filter in Hd' as [_ Hd'].
  rewrite Forall_forall in Hall. by apply Hall.
Qed.

(** ** Coalescing *)

Lemma modifyCalls_save (st : State) :
  started st = true → modifyCalls (saveToDynamicData st) = modifyCalls st + 1.
Proof.
  intros H. rewrite saveToDynamicData_started by done.
  unfold modifyCalls. cbn [trace set_pendingEntityFlush set_duringOurModification
    set_entityData emit].
  by rewrite filter_app, length_app.
Qed.




















(** ** Generated ids *)

(** If the ids "0" .. "n-1" are all live, the live map has at least [n]
    entries. *)
Lemma covered_size (ents : gmap string nat) (n : nat) :
  (∀ j, j < n → is_Some (ents !! pretty j)) → n ≤ size ents.
Proof.
  revert ents. induction n as [|n IH]; intros ents H; [lia|].
  assert (Hn : is_Some (ents !! pretty n)) by (apply H; lia).
  specialize (IH (delete (pretty n) ents)).
  rewrite map_size_delete_Some in IH by done.
  assert (0 < size ents).
  { destruct Hn as [v Hv]. destruct (decide (size ents = 0)) as [Hz|]; [|lia].
    apply map_size_empty_inv in Hz. subst. by rewrite lookup_empty in Hv. }
  enough (n ≤ Nat.pred (size ents)) by lia.
  apply IH. intros j Hj. rewrite lookup_delete_ne.
  - apply H. lia.
  - intros Heq. apply (inj pretty) in Heq. lia.
Qed.

Lemma idLoop_spec (fuel : nat) (ents : gmap string nat) (idn : nat) :
  (∀ j, j < idn → is_Some (ents !! pretty j)) →
  size ents ≤ fuel + idn →
  ∃ n, idLoop fuel ents idn (pretty idn) = Some (pretty n)
       ∧ (∀ j, j < n → is_Some (ents !! pretty j))
       ∧ ents !! pretty n = None.
Proof.
  revert idn. induction fuel as [|fuel IH]; intros idn Hcov Hsz.
  - simpl. destruct (ents !! pretty idn) eqn:Hl; [|by exists idn].
    assert (S idn ≤ size ents); [|lia].
    apply covered_size. intros j Hj.
    destruct (decide (j = idn)) as [->|]; [by rewrite Hl | apply Hcov; lia].
  - simpl. destruct (ents !! pretty idn) eqn:Hl; [|by exists idn].
    apply IH; [|lia]. intros j Hj.
    destruct (decide (j = idn)) as [->|]; [by rewrite Hl | apply Hcov; lia].
Qed.

(** The id loop always ends, on the least number whose decimal form is not
    a live id. *)
Lemma freshId_total (ents : gmap string nat) :
  ∃ n, freshId ents = Some (pretty n)
       ∧ (∀ j, j < n → is_Some (ents !! pretty j))
       ∧ ents !! pretty n = None.
Proof.
  unfold freshId. change "0" with (pretty 0).
  apply idLoop_spec; [intros j Hj; lia | lia].
Qed.

Lemma set_id_same (i : string) (e : Entity) : id e = Some i → set_id i e = e.
Proof. destruct e as [k o t c kt]. simpl. by intros ->. Qed.

(** The id the fulfilment callback inserts under is always defined. *)
Lemma newEntityThen_id (e : Entity) (st : State) :
  ∃ nid, (match id e with Some i => Some i | None => freshId (entities st) end)
         = Some nid.
Proof.
  destruct (id e) as [i|]; [by exists i|].
  destruct (freshId_total (entities st)) as (n & Hf & _). by exists (pretty n).
Qed.

(** The fulfilment callback for an object that enters the heap, in one
    piece: the object is stored with its id, then inserted. *)
Lemma newEntityThen_unfold (e : Entity) (st : State) (nid : string) :
  (match id e with Some i => Some i | None => freshId (entities st) end)
    = Some nid →
  newEntityThen e st
  = insertAs nid (length (objects st))
      (set_objects (objects st ++ [set_id nid e]) st).
Proof.
  intros Hid. unfold newEntityThen, newEntityThenAt.
  cbn [objects set_objects entities].
  rewrite list_lookup_middle by done.
  destruct (id e) as [i|] eqn:He.
  - injection Hid as ->. by rewrite set_id_same.
  - rewrite Hid. f_equal. unfold set_objects. cbn. f_equal.
    rewrite <- (Nat.add_0_r (length (objects st))) at 1.
    by rewrite alter_app_r.
Qed.

Lemma newEntityThen_fresh (newEnt : Entity) (st : State) (nid : string) :
  (match id newEnt with Some i => Some i | None => freshId (entities st) end)
    = Some nid →
  entities st !! nid = None →
  newEntityThen newEnt st
  = emit (EvResolved (length (objects st)))
      (markPendingFlush
         (set_entities (<[nid := length (objects st)]> (entities st))
            (markPendingFlush
               (set_objects (objects st ++ [set_id nid newEnt]) st)))).
Proof.
  intros Hid Hnone. rewrite (newEntityThen_unfold _ _ _ Hid). unfold insertAs.
  unfold killEntity. by rewrite killSteps_absent.
Qed.

(** C4. When the factory resolves with an entity that has no [id], the
    registry takes the least number [n] such that "0" .. "n-1" are live ids
    and "n" is not; the object enters the registry with the decimal form of
    [n] as its [id] and its other fields as the factory left them, and is
    inserted under that id, the other live entries and the other objects
    staying as they are; in Scenario A the live map ends up with the single
    key "0". *)
Theorem C4_generated_id (st : State) (newEnt : Entity) :
  id newEnt = None →
  (∃ n e',
     (∀ j, j < n → is_Some (entities st !! pretty j))
     ∧ entities st !! pretty n = None
     ∧ entities (newEntityThen newEnt st)
       = <[pretty n := length (objects st)]> (entities st)
     ∧ length (objects (newEntityThen newEnt st)) = S (length (objects st))
     ∧ objects (newEntityThen newEnt st) !! length (objects st) = Some e'
     ∧ id e' = Some (pretty n)
     ∧ killed e' = killed newEnt ∧ type e' = type newEnt
     ∧ createTime e' = createTime newEnt ∧ killTime e' = killTime newEnt
     ∧ (∀ r e, objects st !! r = Some e →
               objects (newEntityThen newEnt st) !! r = Some e))
  ∧ entities scenarioA = {[ "0" := 0 ]}
  ∧ dom (entities scenarioA) = {[ "0" ]}.
Proof.
  intros Hid. split.
  - destruct (freshId_total (entities st)) as (n & Hf & Hlow & Hnone).
    assert (E : (match id newEnt with
                 | Some i => Some i | None => freshId (entities st) end)
                = Some (pretty n)) by (by rewrite Hid).
    pose proof (newEntityThen_fresh newEnt st (pretty n) E Hnone) as Hthen.
    assert (Hobjs : objects (newEntityThen newEnt st)
                    = objects st ++ [set_id (pretty n) newEnt])
      by (by rewrite Hthen).
    exists n.
    destruct (objects (newEntityThen newEnt st) !! length (objects st))
      as [e'|] eqn:He'.
    2: { apply lookup_ge_None in He'. rewrite Hobjs, length_app in He'.
         simpl in He'. lia. }
    exists e'. split; [done|]. split; [done|].
    split; [by rewrite Hthen|].
    split; [rewrite Hobjs, length_app; simpl; lia|].
    split; [done|].
    assert (e' = set_id (pretty n) newEnt) as ->.
    { rewrite Hobjs, list_lookup_middle in He' by done. by injection He' as <-. }
    split; [by destruct newEnt|]. repeat (split; [by destruct newEnt|]).
    intros r e He. rewrite Hobjs. apply lookup_app_l_Some. done.
  - assert (E : entities scenarioA = {[ "0" := 0 ]}) by (vm_compute; reflexivity).
    split; [exact E|]. rewrite E. apply dom_singleton_L.
Qed.

Lemma C4_generated_id_witness :
  entities scenarioA = {[ "0" := 0 ]}.
Proof.
  destruct (C4_generated_id (init []) entityNoId) as (_ & H & _); [reflexivity|].
  exact H.
Defined.

(** ** Killed entities stay killed and are never live *)

Lemma grows_refl (st : State) : grows st st.
Proof. split; [done|]. intros r e H. by exists e. Qed.

Lemma grows_trans (a b c : State) : grows a b → grows b c → grows a c.
Proof.
  intros [H1 H2] [G1 G2]. split; [auto|].
  intros r e He. destruct (H2 r e He) as (e' & He' & Hk).
  destruct (G2 r e' He') as (e'' & He'' & Hk').
  exists e''. split; [done | auto].
Qed.

Lemma grows_same (st st' : State) :
  objects st' = objects st → entities st' = entities st → grows st st'.
Proof.
  intros Ho He. split.
  - unfold liveInv. by rewrite Ho, He.
  - intros r e H. exists e. by rewrite Ho.
Qed.

Lemma grows_killSteps (k : string) (st : State) : grows st (killSteps k st).
Proof.
  unfold killSteps. destruct (entities st !! k) as [v|] eqn:Hk; [|apply grows_refl].
  split.
  - intros [I1 I2]. split; simpl.
    + intros i r Hi. apply lookup_delete_Some in Hi as [Hne Hi].
      destruct (I1 i r Hi) as (e & He & Hf). exists e. split; [|done].
      rewrite list_lookup_alter_ne; [done|].
      intros ->. apply Hne. by apply (I2 k i r).
    + intros i j r Hi Hj.
      apply lookup_delete_Some in Hi as [_ Hi].
      apply lookup_delete_Some in Hj as [_ Hj]. by apply (I2 i j r).
  - intros r e He. simpl. destruct (decide (v = r)) as [->|Hne].
    + exists (set_killed true e). by rewrite list_lookup_alter_eq, He.
    + exists e. by rewrite list_lookup_alter_ne.
Qed.

Lemma grows_killLoop (ks : list string) (st : State) :
  grows st (foldl (fun s k => killSteps k s) st ks).
Proof.
  revert st. induction ks as [|k ks IH]; intros st; simpl.
  - apply grows_refl.
  - eapply grows_trans; [apply grows_killSteps | apply IH].
Qed.

Lemma grows_markPendingFlush (st : State) : grows st (markPendingFlush st).
Proof. by apply grows_same. Qed.

Lemma grows_killEntity (i : string) (st : State) : grows st (killEntity i st).
Proof.
  unfold killEntity.
  eapply grows_trans; [apply grows_killSteps | apply grows_markPendingFlush].
Qed.

Lemma grows_killAllEntities (st : State) : grows st (killAllEntities st).
Proof.
  unfold killAllEntities.
  eapply grows_trans; [apply grows_killLoop | apply grows_markPendingFlush].
Qed.

Lemma grows_newEntity (d : EntityData) (st : State) : grows st (newEntity d st).
Proof.
  apply grows_same; unfold newEntity;
    by destruct (started st), (bool_decide (d_type d ∈ entityTypes st)),
      (bool_decide (d_type d ∈ objectPrototypeKeys)).
Qed.

Lemma grows_newEntityLoop (ds : list EntityData) (st : State) :
  grows st (foldl (fun s entity => newEntity entity s) st ds).
Proof.
  revert st. induction ds as [|d ds IH]; intros st; simpl.
  - apply grows_refl.
  - eapply grows_trans; [apply grows_newEntity | apply IH].
Qed.

Lemma grows_resetEntities (st : State) : grows st (resetEntities st).
Proof.
  unfold resetEntities. destruct (started st); [|apply grows_refl].
  eapply grows_trans; [by apply (grows_same st (emit EvReset st))|].
  eapply grows_trans; [apply grows_killAllEntities|].
  eapply grows_trans; [apply grows_newEntityLoop|].
  by apply grows_same.
Qed.

Lemma grows_onModify (st : State) : grows st (onModify st).
Proof.
  unfold onModify.
  destruct (started st), (duringOurModification st);
    try apply grows_refl. apply grows_resetEntities.
Qed.

Lemma grows_DynamicData_modify (f : list EntityData → list EntityData)
    (st : State) : grows st (DynamicData_modify f st).
Proof.
  unfold DynamicData_modify.
  eapply grows_trans; [|apply grows_onModify]. by apply grows_same.
Qed.

Lemma grows_saveToDynamicData (st : State) : grows st (saveToDynamicData st).
Proof.
  destruct (started st) eqn:Hs.
  - rewrite saveToDynamicData_started by done. by apply grows_same.
  - rewrite saveToDynamicData_not_started by done. apply grows_refl.
Qed.

Lemma grows_start (st : State) : grows st (start st).
Proof.
  unfold start. destruct (started st); [apply grows_refl|].
  eapply grows_trans; [|apply grows_resetEntities]. by apply grows_same.
Qed.

(** The objects and the live map after the fulfilment callback gave the
    new object the id [nid]. *)
Lemma newEntityThen_shape (e : Entity) (st : State) (nid : string) :
  (match id e with Some i => Some i | None => freshId (entities st) end)
    = Some nid →
  entities (newEntityThen e st)
  = <[nid := length (objects st)]> (delete nid (entities st))
  ∧ objects (newEntityThen e st)
    = match entities st !! nid with
      | Some v => alter (set_killed true) v (objects st ++ [set_id nid e])
      | None => objects st ++ [set_id nid e]
      end.
Proof.
  intros Hid. rewrite (newEntityThen_unfold _ _ _ Hid). unfold insertAs.
  unfold killEntity, killSteps. cbn [entities set_objects objects].
  destruct (entities st !! nid) eqn:Hv; simpl; [done|].
  by rewrite delete_id.
Qed.

Lemma grows_newEntityThen (e : Entity) (st : State) :
  killed e = false → grows st (newEntityThen e st).
Proof.
  intros Hfresh.
  destruct (newEntityThen_id e st) as [nid Hid].
  destruct (newEntityThen_shape e st nid Hid) as [Hents Hobjs].
  split.
  - intros [I1 I2].
    assert (Hnew : objects (newEntityThen e st) !! length (objects st)
                   = Some (set_id nid e)).
    { rewrite Hobjs. destruct (entities st !! nid) as [v|] eqn:Hv.
      - destruct (I1 nid v Hv) as (ev & Hev & _). apply lookup_lt_Some in Hev.
        rewrite list_lookup_alter_ne by lia. apply list_lookup_middle. done.
      - by apply list_lookup_middle. }
    assert (Hold : ∀ i r, i ≠ nid → entities st !! i = Some r →
              objects (newEntityThen e st) !! r = objects st !! r
              ∧ r < length (objects st)).
    { intros i r Hne Hi. destruct (I1 i r Hi) as (ei & Hei & _).
      pose proof (lookup_lt_Some _ _ _ Hei) as Hlt. split; [|done].
      rewrite Hobjs. destruct (entities st !! nid) as [v|] eqn:Hv.
      - rewrite list_lookup_alter_ne; [by apply lookup_app_l|].
        intros ->. apply Hne. by apply (I2 i nid r).
      - by apply lookup_app_l. }
    split.
    + intros i r Hi. rewrite Hents in Hi.
      apply lookup_insert_Some in Hi as [[<- <-]|[Hne Hi]].
      * exists (set_id nid e). by split.
      * apply lookup_delete_Some in Hi as [_ Hi].
        destruct (Hold i r (not_eq_sym Hne) Hi) as [-> _]. by apply (I1 i r).
    + intros i j r Hi Hj. rewrite Hents in Hi, Hj.
      apply lookup_insert_Some in Hi as [[<- <-]|[Hne Hi]];
        apply lookup_insert_Some in Hj as [[<- Hr]|[Hne' Hj]]; try done.
      * apply lookup_delete_Some in Hj as [_ Hj].
        destruct (Hold j _ (not_eq_sym Hne') Hj) as [_ Hlt]. lia.
      * apply lookup_delete_Some in Hi as [_ Hi].
        destruct (Hold i _ (not_eq_sym Hne) Hi) as [_ Hlt]. lia.
      * apply lookup_delete_Some in Hi as [_ Hi].
        apply lookup_delete_Some in Hj as [_ Hj]. by apply (I2 i j r).
  - intros r e0 He0. rewrite Hobjs.
    pose proof (lookup_lt_Some _ _ _ He0) as Hlt.
    destruct (entities st !! nid) as [v|].
    + destruct (decide (v = r)) as [->|Hne].
      * exists (set_killed true e0).
        by rewrite list_lookup_alter_eq, lookup_app_l, He0.
      * exists e0. by rewrite list_lookup_alter_ne, lookup_app_l.
    + exists e0. by rewrite lookup_app_l.
Qed.

Lemma grows_settle (k : nat) (o : option Entity) (st : State) :
  freshResult (OpSettle k o) → grows st (settle k o st).
Proof.
  intros Hf. unfold settle. destruct (inflight st !! k) as [d|]; [|apply grows_refl].
  eapply grows_trans;
    [by apply (grows_same st (set_inflight (delete k (inflight st)) st))|].
  destruct o as [e|]; [by apply grows_newEntityThen | by apply grows_same].
Qed.

Lemma keepsKilled_trans (a b c : State) :
  keepsKilled a b → keepsKilled b c → keepsKilled a c.
Proof.
  intros H G r e He. destruct (H r e He) as (e' & He' & Hk).
  destruct (G r e' He') as (e'' & He'' & Hk').
  exists e''. split; [done | auto].
Qed.

Lemma keepsKilled_same (st st' : State) :
  objects st' = objects st → keepsKilled st st'.
Proof. intros Ho r e H. exists e. by rewrite Ho. Qed.

(** An object that enters the heap not killed. *)
Lemma grows_alloc (e : Entity) (st : State) :
  grows st (set_objects (objects st ++ [e]) st).
Proof.
  assert (Hsub : ∀ r x, objects st !! r = Some x →
            (objects st ++ [e]) !! r = Some x).
  { intros r x Hr. rewrite lookup_app_l; [done|]. by apply lookup_lt_Some in Hr. }
  split.
  - intros [I1 I2]. split; [|done].
    intros i r Hi. destruct (I1 i r Hi) as (x & Hx & Hk).
    exists x. split; [by apply Hsub | done].
  - intros r x Hx. exists x. split; [by apply Hsub | done].
Qed.

Lemma grows_construct (k : nat) (now : Z) (i : string) (st : State) :
  grows st (construct k now i st).
Proof.
  unfold construct. destruct (inflight st !! k) as [d|]; [|apply grows_refl].
  destruct (Entity_new_defers_check d); [|apply grows_alloc].
  eapply grows_trans; [apply grows_alloc | by apply grows_same].
Qed.

(** Line 185 on the object [r]. *)
Lemma alter_set_id_lookup (nid : string) (r s : nat) (objs : list Entity)
    (e : Entity) :
  objs !! s = Some e →
  ∃ e', alter (set_id nid) r objs !! s = Some e' ∧ killed e' = killed e.
Proof.
  intros H. destruct (decide (r = s)) as [->|Hne].
  - exists (set_id nid e). by rewrite list_lookup_alter_eq, H.
  - exists e. by rewrite list_lookup_alter_ne.
Qed.

Lemma grows_set_id (nid : string) (r : nat) (st : State) :
  grows st (set_objects (alter (set_id nid) r (objects st)) st).
Proof.
  split.
  - intros [I1 I2]. split; [|done].
    intros i s Hi. destruct (I1 i s Hi) as (x & Hx & Hk).
    destruct (alter_set_id_lookup nid r s _ x Hx) as (x' & Hx' & Hk').
    exists x'. split; [done | congruence].
  - intros s x Hx.
    destruct (alter_set_id_lookup nid r s _ x Hx) as (x' & Hx' & Hk').
    exists x'. split; [done | congruence].
Qed.

Lemma freshObject_set_id (nid : string) (r : nat) (st : State) :
  freshObject st r →
  freshObject (set_objects (alter (set_id nid) r (objects st)) st) r.
Proof.
  intros [F1 F2]. split; [|done]. intros e. st_simpl.
  rewrite list_lookup_alter_eq. destruct (objects st !! r) as [x|] eqn:Hx; [|done].
  simpl. intros [= <-]. by apply (F1 x).
Qed.

Lemma freshObject_killSteps (k : string) (r : nat) (st : State) :
  freshObject st r → freshObject (killSteps k st) r.
Proof.
  intros [F1 F2]. unfold killSteps.
  destruct (entities st !! k) as [v|] eqn:Hk; [|done].
  split; st_simpl.
  - intros e. rewrite list_lookup_alter_ne; [apply F1|].
    intros ->. by apply (F2 k).
  - intros i Hi. apply lookup_delete_Some in Hi as [_ Hi]. by apply (F2 i).
Qed.

(** Line 189 for an object that is neither killed nor live. *)
Lemma liveInv_insert (nid : string) (r : nat) (st st' : State) :
  liveInv st → freshObject st r → is_Some (objects st !! r) →
  objects st' = objects st →
  entities st' = <[nid := r]> (entities st) →
  liveInv st'.
Proof.
  intros [I1 I2] [F1 F2] [x Hx] Ho He. split; rewrite ?Ho, He.
  - intros i s Hi. apply lookup_insert_Some in Hi as [[<- <-]|[Hne Hi]].
    + exists x. split; [done | by apply F1].
    + by apply (I1 i s).
  - intros i j s Hi Hj.
    apply lookup_insert_Some in Hi as [[<- <-]|[Hne Hi]];
      apply lookup_insert_Some in Hj as [[<- Hs]|[Hne' Hj]]; try done.
    + by destruct (F2 j).
    + subst s. by destruct (F2 i).
    + by apply (I2 i j s).
Qed.

Lemma liveInv_insertAs (nid : string) (r : nat) (st : State) :
  liveInv st → freshObject st r → is_Some (objects st !! r) →
  liveInv (insertAs nid r st).
Proof.
  intros L F Hr.
  apply (liveInv_insert nid r (killSteps nid st)).
  - by apply (grows_killSteps nid st).
  - by apply freshObject_killSteps.
  - destruct Hr as [x Hx].
    destruct (proj2 (grows_killSteps nid st) r x Hx) as (x' & Hx' & _). by exists x'.
  - reflexivity.
  - reflexivity.
Qed.

Lemma keepsKilled_insertAs (nid : string) (r : nat) (st : State) :
  keepsKilled st (insertAs nid r st).
Proof.
  apply keepsKilled_trans with (killSteps nid st);
    [apply grows_killSteps | by apply keepsKilled_same].
Qed.

(** No fulfilment callback clears a [killed] flag, whatever the factory
    resolved with. *)
Lemma keepsKilled_thenAt (r : nat) (st : State) :
  keepsKilled st (newEntityThenAt r st).
Proof.
  unfold newEntityThenAt.
  destruct (objects st !! r) as [e|]; [|apply grows_refl].
  destruct (id e) as [i|]; [apply keepsKilled_insertAs|].
  destruct (freshId (entities st)) as [nid|]; [|apply grows_refl].
  eapply keepsKilled_trans; [apply grows_set_id | apply keepsKilled_insertAs].
Qed.

Lemma keepsKilled_newEntityThen (e : Entity) (st : State) :
  keepsKilled st (newEntityThen e st).
Proof.
  unfold newEntityThen.
  eapply keepsKilled_trans; [apply grows_alloc | apply keepsKilled_thenAt].
Qed.

(** The fulfilment callback for a heap object that is neither killed nor
    live keeps the live map on objects that are not killed. *)
Lemma grows_thenAt (r : nat) (st : State) :
  freshObject st r → grows st (newEntityThenAt r st).
Proof.
  intros F. split; [|apply keepsKilled_thenAt].
  intros L. unfold newEntityThenAt.
  destruct (objects st !! r) as [e|] eqn:Hr; [|done].
  destruct (id e) as [i|]; [by apply liveInv_insertAs|].
  destruct (freshId (entities st)) as [nid|]; [|done].
  apply liveInv_insertAs.
  - by apply (grows_set_id nid r st).
  - by apply freshObject_set_id.
  - st_simpl. rewrite list_lookup_alter_eq, Hr. by eexists.
Qed.

Lemma grows_settleWith (k r : nat) (st : State) :
  freshObject st r → grows st (settleWith k r st).
Proof.
  intros F. unfold settleWith.
  destruct (inflight st !! k) as [d|]; [|apply grows_refl].
  destruct (objects st !! r) as [e|]; [|apply grows_refl].
  eapply grows_trans;
    [by apply (grows_same st (set_inflight (delete k (inflight st)) st))|].
  by apply grows_thenAt.
Qed.

Lemma grows_boundKill (r : nat) (st : State) : grows st (boundKill r st).
Proof.
  unfold boundKill. destruct (objects st !! r) as [this|]; [|apply grows_refl].
  destruct (killed this); [apply grows_refl | apply grows_killEntity].
Qed.

Lemma grows_check (now : Z) (r : nat) (st : State) :
  grows st (entityCheckIfShouldKill boundKill now r st).
Proof.
  unfold entityCheckIfShouldKill.
  destruct (objects st !! r) as [this|]; [|apply grows_refl].
  destruct (killed this); [apply grows_refl|].
  destruct (killTime this =? 0)%Z; [apply grows_refl|].
  destruct (now >=? killTime this)%Z; [|by apply grows_same].
  eapply grows_trans; [apply grows_boundKill | by apply grows_same].
Qed.

Lemma grows_runCallback (now : Z) (cb : Callback) (st : State) :
  grows st (runCallback now cb st).
Proof.
  destruct cb as [|r]; simpl; [|apply grows_check].
  unfold flushCallback.
  destruct (pendingEntityFlush st); [apply grows_saveToDynamicData | apply grows_refl].
Qed.

Lemma grows_runImmediates (now : Z) (st : State) :
  grows st (runImmediates now st).
Proof.
  unfold runImmediates.
  eapply grows_trans; [by apply (grows_same st (set_immediates [] st))|].
  generalize (set_immediates [] st). generalize (immediates st).
  intros cbs. induction cbs as [|cb cbs IH]; intros s; simpl.
  - apply grows_refl.
  - eapply grows_trans; [apply grows_runCallback | apply IH].
Qed.

Lemma grows_exec (op : Op) (st : State) :
  freshAt st op → grows st (exec op st).
Proof.
  intros Hf. destruct op; simpl.
  - by apply grows_same.
  - apply grows_start.
  - apply grows_newEntity.
  - by apply grows_settle.
  - apply grows_construct.
  - by apply grows_settleWith.
  - apply grows_killEntity.
  - apply grows_killAllEntities.
  - apply grows_resetEntities.
  - apply grows_markPendingFlush.
  - apply grows_saveToDynamicData.
  - apply grows_DynamicData_modify.
  - apply grows_runImmediates.
  - apply grows_check.
Qed.

Lemma keepsKilled_exec (op : Op) (st : State) : keepsKilled st (exec op st).
Proof.
  destruct op as [t| |d|k o|k now i|k r|i| | | | |d|now|r now];
    try (by apply grows_exec).
  - simpl. unfold settle. destruct (inflight st !! k) as [d|]; [|apply grows_refl].
    eapply keepsKilled_trans;
      [by apply (keepsKilled_same st (set_inflight (delete k (inflight st)) st))|].
    destruct o as [e|]; [apply keepsKilled_newEntityThen | by apply keepsKilled_same].
  - simpl. unfold settleWith.
    destruct (inflight st !! k) as [d|]; [|apply grows_refl].
    destruct (objects st !! r) as [e|]; [|apply grows_refl].
    eapply keepsKilled_trans;
      [by apply (keepsKilled_same st (set_inflight (delete k (inflight st)) st))|].
    apply keepsKilled_thenAt.
Qed.

Lemma liveInv_init (data : list EntityData) : liveInv (init data).
Proof. split; simpl; intros *; by rewrite lookup_empty. Qed.

Lemma liveInv_run (ops : list Op) (st : State) :
  runWith freshAt ops st → liveInv st → liveInv (run ops st).
Proof.
  revert st. induction ops as [|op ops IH]; intros st H Hinv; simpl; [done|].
  destruct H as [Hop H]. apply IH; [done|]. by apply (grows_exec op st).
Qed.


(** C9, amended. Along every run of registry operations on ids that are
    not inherited names, no operation clears a [killed] flag.  When,
    moreover, every factory resolves with an object that at that moment
    is neither killed nor in the live map (one it has just made, say): an
    entity in the live map is not killed, so a killed entity object is not
    a live entry, and it is not one after the next such operation
    either. *)
Theorem C9_kill_monotonic (data : list EntityData) (ops : list Op) :
  Forall plainOp ops →
  let st := run ops (init data) in
  (∀ op r e, plainOp op → objects st !! r = Some e → killed e = true →
     ∃ e', objects (exec op st) !! r = Some e' ∧ killed e' = true)
  ∧ (runWith freshAt ops (init data) →
     (∀ i r e, entities st !! i = Some r → objects st !! r = Some e →
               killed e = false)
     ∧ (∀ r e, objects st !! r = Some e → killed e = true →
               ∀ i, entities st !! i ≠ Some r)
     ∧ (∀ op, plainOp op → freshAt st op →
          ∀ r e, objects st !! r = Some e → killed e = true →
            ∀ i, entities (exec op st) !! i ≠ Some r)).
Proof.
  intros _ st. split.
  - intros op r e _ He Hk.
    destruct (keepsKilled_exec op st r e He) as (e' & He' & Hk').
    exists e'. split; [done | auto].
  - intros Hops.
    pose proof (liveInv_run ops (init data) Hops (liveInv_init data)) as Hinv.
    fold st in Hinv.
    assert (Hlive : ∀ s, liveInv s → ∀ i r e,
              entities s !! i = Some r → objects s !! r = Some e → killed e = false).
    { intros s [I1 _] i r e Hi He. destruct (I1 i r Hi) as (e' & He' & Hk). congruence. }
    split; [by apply Hlive|]. split.
    + intros r e He Hk i Hi. pose proof (Hlive st Hinv i r e Hi He). congruence.
    + intros op _ Hop r e He Hk.
      destruct (grows_exec op st Hop) as [Hpres Hkeep].
      destruct (Hkeep r e He) as (e' & He' & Hk').
      intros i Hi. pose proof (Hlive _ (Hpres Hinv) i r e' Hi He') as Hc.
      rewrite Hk' in Hc by done. discriminate.
Qed.

(** C9 as stated fails: a factory that resolves twice with the same object
    has it killed and inserted again by lines 188-189, after which the
    live entry "a" is an object whose [killed] flag is set. *)
Lemma C9_counterexample :
  Forall plainOp reinsertion
  ∧ entities (run reinsertion (init [recordX])) !! "a" = Some 0
  ∧ killed <$> objects (run reinsertion (init [recordX])) !! 0 = Some true.
Proof.
  split; [unfold reinsertion; repeat constructor|]. split; by vm_compute.
Qed.

(** ** The statements at concrete runs *)

Lemma C1_self_origin_suppression_witness :
  onModify (set_duringOurModification true scenarioA)
  = set_duringOurModification true scenarioA
  ∧ trace (saveToDynamicData scenarioA) = trace scenarioA ++ [EvModify].
Proof.
  split.
  - destruct (C1_self_origin_suppression (set_duringOurModification true scenarioA))
      as [H _].
    apply H. reflexivity.
  - destruct (C1_self_origin_suppression scenarioA) as [_ H].
    destruct H as [H _]; [vm_compute; reflexivity | exact H].
Defined.


Lemma C5_failure_semantics_witness :
  newEntity toStringRecord scenarioA = emit EvRejected scenarioA
  ∧ entities (newEntity unknownRecord scenarioA) = entities scenarioA
  ∧ pendingEntityFlush (newEntity unknownRecord scenarioA)
    = pendingEntityFlush scenarioA.
Proof.
  destruct (C5_failure_semantics scenarioA) as [H _]; [vm_compute; reflexivity|].
  split.
  - destruct (H toStringRecord) as (_ & Hi & _).
    + vm_compute. intros Hin. discriminate Hin.
    + apply Hi. unfold objectPrototypeKeys. cbn [d_type toStringRecord].
      repeat constructor.
  - destruct (H unknownRecord) as (_ & _ & _ & He & _ & _ & Hp & _).
    + vm_compute. intros Hin. discriminate Hin.
    + split; [exact He | exact Hp].
Defined.

Lemma C6_not_started_witness :
  resetEntities (init [recordX]) = init [recordX]
  ∧ modifyCalls (run beforeStart (init [recordX])) = 0.
Proof.
  destruct (C6_not_started (init [recordX])) as [H1 H2]. split.
  - destruct H1 as (_ & H & _); [reflexivity | exact H].
  - destruct (H2 [recordX] beforeStart) as (_ & _ & _ & _ & H & _); [|exact H].
    unfold beforeStart. repeat constructor; discriminate.
Defined.

Lemma C8_expiry_check_witness :
  timeouts (entityCheckIfShouldKill boundKill 60 0 scenarioD)
  = timeouts (boundKill 0 scenarioD) ++ [(CheckCb 0, 1000%Z)].
Proof.
  destruct (C8_expiry_check boundKill 60 0 scenarioD (set_id "0" entityExpiring))
    as (_ & H & _).
  - vm_compute. reflexivity.
  - simpl. discriminate.
  - destruct H as [H _]; [reflexivity | simpl; lia | exact H].
Defined.

Lemma C9_kill_monotonic_witness :
  entities (run lifeAndDeath (init [recordX])) !! "0" ≠ Some 0.
Proof.
  destruct (C9_kill_monotonic [recordX] lifeAndDeath) as [_ H].
  - unfold lifeAndDeath.
    repeat (constructor; [first [exact I | reflexivity | intros ? [=]]|]).
    constructor.
  - destruct H as (_ & H & _).
    + unfold lifeAndDeath. cbn [runWith].
      repeat (split; [first [exact I | reflexivity]|]). exact I.
    + apply (H 0 (set_killed true (set_id "0" entityNoId))).
      * vm_compute. reflexivity.
      * reflexivity.
Defined.

Lemma C10_ids_not_persisted_witness :
  Forall (fun d => "id" ∉ fieldNames d)
    (inflight (reload {[ "x" ]} (entityData (saveToDynamicData scenarioA)))).
Proof.
  destruct (C10_ids_not_persisted scenarioA) as [_ H].
  destruct H as [_ H]; [vm_compute; reflexivity|].
  destruct (H {[ "x" ]}) as (_ & _ & Hf). exact Hf.
Defined.

(** * Further properties of the module *)

(** ** Starting and resetting *)

Lemma killLoop_spec (kvs : list (string * nat)) (st : State) :
  NoDup kvs.*1 →
  (∀ k v, (k, v) ∈ kvs → entities st !! k = Some v) →
  let st' := foldl (fun s k => killSteps k s) st kvs.*1 in
  (∀ i, entities st' !! i
        = if decide (i ∈ kvs.*1) then None else entities st !! i)
  ∧ trace st' = trace st ++ (EvOnKill <$> kvs.*2)
  ∧ ∀ k v e, (k, v) ∈ kvs → objects st !! v = Some e →
      ∃ e', objects st' !! v = Some e' ∧ killed e' = true.
Proof.
  revert st. induction kvs as [|[k v] kvs IH]; intros st Hnd Hin.
  - simpl. split; [done|]. split; [by rewrite app_nil_r|].
    intros k v e Hk. by apply elem_of_nil in Hk.
  - rewrite !fmap_cons in *. cbn [foldl fst snd] in *.
    apply NoDup_cons in Hnd as [Hk Hnd].
    assert (Hkv : entities st !! k = Some v) by (apply Hin; left).
    assert (E : killSteps k st
      = emit (EvOnKill v)
          (set_entities (delete k (entities st))
             (set_objects (alter (set_killed true) v (objects st)) st))).
    { unfold killSteps. by rewrite Hkv. }
    destruct (IH (killSteps k st) Hnd) as (He & Ht & Ho).
    { intros k' v' Hin'. rewrite E. cbn [entities emit set_entities].
      rewrite lookup_delete_ne; [apply Hin; by right|].
      intros ->. apply Hk. apply list_elem_of_fmap. by exists (k', v'). }
    split; [|split].
    + intros i. rewrite He, E. cbn [entities emit set_entities].
      destruct (decide (i = k)) as [->|Hne].
      * rewrite lookup_delete_eq.
        destruct (decide (k ∈ k :: kvs.*1)) as [_|Hc]; [|exfalso; apply Hc; left].
        by destruct (decide (k ∈ kvs.*1)).
      * rewrite lookup_delete_ne by done.
        destruct (decide (i ∈ kvs.*1)) as [Hi|Hi];
          destruct (decide (i ∈ k :: kvs.*1)) as [Hc|Hc]; try done.
        -- exfalso. apply Hc. by right.
        -- apply elem_of_cons in Hc as [?|?]; done.
    + rewrite Ht, E. cbn [trace emit]. by rewrite <- app_assoc.
    + intros k' v' e Hin' He'.
      assert (He1 : ∃ e1, objects (killSteps k st) !! v' = Some e1
                ∧ (v' = v → killed e1 = true)).
      { rewrite E. cbn [objects emit set_entities set_objects].
        destruct (decide (v = v')) as [->|Hne].
        - exists (set_killed true e). by rewrite list_lookup_alter_eq, He'.
        - exists e. rewrite list_lookup_alter_ne by done. split; [done | congruence]. }
      destruct He1 as (e1 & He1 & Hk1).
      apply elem_of_cons in Hin' as [Heq|Hin'].
      * injection Heq as -> ->.
        destruct (grows_killLoop kvs.*1 (killSteps k st)) as [_ Hkeep].
        destruct (Hkeep v e1 He1) as (e' & He'' & Hk'). exists e'. auto.
      * by apply (Ho k' v' e1).
Qed.

Lemma killAllEntities_spec (st : State) :
  entities (killAllEntities st) = ∅
  ∧ trace (killAllEntities st)
    = trace st ++ (EvOnKill <$> (map_to_list (entities st)).*2)
  ∧ ∀ i r e, entities st !! i = Some r → objects st !! r = Some e →
      ∃ e', objects (killAllEntities st) !! r = Some e' ∧ killed e' = true.
Proof.
  destruct (killLoop_spec (map_to_list (entities st)) st) as (He & Ht & Ho).
  { apply NoDup_fst_map_to_list. }
  { intros k v Hkv. by apply elem_of_map_to_list. }
  unfold killAllEntities. cbn [entities trace objects markPendingFlush
    set_immediates set_pendingEntityFlush].
  split; [|split; [done|]].
  - apply map_eq. intros i. rewrite He, lookup_empty.
    destruct (decide (i ∈ (map_to_list (entities st)).*1)) as [|Hni]; [done|].
    destruct (entities st !! i) as [r|] eqn:Hi; [|done].
    exfalso. apply Hni. apply list_elem_of_fmap. exists (i, r).
    split; [done | by apply elem_of_map_to_list].
  - intros i r e Hi He'. apply (Ho i r e); [|done]. by apply elem_of_map_to_list.
Qed.

Lemma resetEntities_spec (st : State) :
  started st = true →
  started (resetEntities st) = true
  ∧ pendingEntityFlush (resetEntities st) = false
  ∧ entities (resetEntities st) = ∅
  ∧ immediates (resetEntities st) = immediates st ++ [FlushCb]
  ∧ entityData (resetEntities st) = entityData st.
Proof.
  intros H. rewrite resetEntities_started by done.
  destruct (killAllEntities_frame (emit EvReset st)) as (_ & Hs & Hd & _ & Hi & _).
  destruct (killAllEntities_spec (emit EvReset st)) as (He & _).
  unfold set_pendingEntityFlush, withAttempts.
  cbn [started pendingEntityFlush entities immediates entityData].
  by rewrite Hs, He, Hi, Hd.
Qed.

(** X1. [start()] starts the registry, and a second [start()] changes
    nothing: no second reset, no kill, no factory call. *)
Theorem X1_start_idempotent (st : State) :
  started (start st) = true ∧ start (start st) = start st.
Proof.
  assert (H : started (start st) = true).
  { unfold start. destruct (started st) eqn:Hs; [done|].
    by apply resetEntities_spec. }
  split; [done|]. unfold start at 1. by rewrite H.
Qed.

Lemma omap_onKills (l : list nat) : omap onKillOf (EvOnKill <$> l) = l.
Proof. induction l as [|x l IH]; [done|]. simpl. f_equal. exact IH. Qed.

(** X2. [killAllEntities()] empties the live map, sets [killed] on every
    entity that was live, calls [onKill()] once for each of them and for
    nothing else, and marks one pending flush. *)
Theorem X2_killAllEntities (st : State) :
  entities (killAllEntities st) = ∅
  ∧ (∀ i r e, entities st !! i = Some r → objects st !! r = Some e →
       ∃ e', objects (killAllEntities st) !! r = Some e' ∧ killed e' = true)
  ∧ trace (killAllEntities st)
    = trace st ++ (EvOnKill <$> (map_to_list (entities st)).*2)
  ∧ length (killLog (killAllEntities st))
    = length (killLog st) + size (entities st)
  ∧ immediates (killAllEntities st) = immediates st ++ [FlushCb]
  ∧ pendingEntityFlush (killAllEntities st) = true.
Proof.
  destruct (killAllEntities_spec st) as (He & Ht & Ho).
  destruct (killAllEntities_frame st) as (_ & _ & _ & _ & Hi & Hp & _).
  repeat split; try done.
  unfold killLog. rewrite Ht, omap_app, length_app. f_equal.
  rewrite <- length_map_to_list.
  rewrite <- (length_fmap snd (map_to_list (entities st))).
  by rewrite omap_onKills.
Qed.

(** ** Insertion *)

(** X3. Last write wins: when a factory resolves with an entity whose id is
    already live, the predecessor is killed ([killed] set, [onKill()]
    called) and the new object takes its place under that id; the other
    entries and the number of live entities stay as they are. *)
Theorem X3_last_write_wins (st : State) (newEnt old : Entity) (i : string)
    (v : nat) :
  id newEnt = Some i →
  entities st !! i = Some v →
  objects st !! v = Some old →
  let st' := newEntityThen newEnt st in
  entities st' = <[i := length (objects st)]> (entities st)
  ∧ size (entities st') = size (entities st)
  ∧ objects st' !! v = Some (set_killed true old)
  ∧ objects st' !! length (objects st) = Some (set_id i newEnt)
  ∧ trace st' = trace st ++ [EvOnKill v; EvResolved (length (objects st))].
Proof.
  intros Hid Hi Hv st'.
  pose proof (lookup_lt_Some _ _ _ Hv) as Hlt.
  assert (E : st' = emit (EvResolved (length (objects st)))
    (markPendingFlush
       (set_entities (<[i := length (objects st)]> (delete i (entities st)))
          (markPendingFlush
             (emit (EvOnKill v)
                (set_entities (delete i (entities st))
                   (set_objects
                      (alter (set_killed true) v (objects st ++ [set_id i newEnt]))
                      (set_objects (objects st ++ [set_id i newEnt]) st)))))))).
  { unfold st'. rewrite (newEntityThen_unfold newEnt st i) by (by rewrite Hid).
    unfold insertAs, killEntity, killSteps. cbn [entities set_objects].
    by rewrite Hi. }
  rewrite E. cbn [entities objects trace emit markPendingFlush set_entities
    set_objects set_immediates set_pendingEntityFlush].
  rewrite insert_delete_eq.
  split; [done|]. split; [by apply map_size_insert_Some|]. split; [|split].
  - by rewrite list_lookup_alter_eq, lookup_app_l, Hv.
  - rewrite list_lookup_alter_ne by lia. by apply list_lookup_middle.
  - by rewrite <- app_assoc.
Qed.

(** X4. An entity without an id never displaces another: it is inserted
    under a key that was free, every earlier entry and every object stay as
    they are, no [onKill()] runs, and the live map grows by one. *)
Theorem X4_generated_id_displaces_nothing (st : State) (newEnt : Entity) :
  id newEnt = None →
  let st' := newEntityThen newEnt st in
  size (entities st') = S (size (entities st))
  ∧ (∀ i r, entities st !! i = Some r → entities st' !! i = Some r)
  ∧ (∀ r e, objects st !! r = Some e → objects st' !! r = Some e)
  ∧ killLog st' = killLog st.
Proof.
  intros Hid st'.
  destruct (freshId_total (entities st)) as (n & Hf & _ & Hnone).
  unfold st'. rewrite (newEntityThen_fresh newEnt st (pretty n));
    [|by rewrite Hid | done].
  cbn [entities objects trace emit markPendingFlush set_entities
    set_objects set_immediates set_pendingEntityFlush].
  split; [by apply map_size_insert_None|]. split; [|split].
  - intros i r Hi. rewrite lookup_insert_ne; [done|]. congruence.
  - intros r e He. rewrite lookup_app_l; [done|]. by apply lookup_lt_Some in He.
  - unfold killLog. st_simpl. by rewrite omap_app, app_nil_r.
Qed.

(** ** A reset and the store *)

Lemma filter_modify_none (evs : list Event) :
  Forall (fun ev => isModify ev = false) evs →
  filter (fun ev => isModify ev = true) evs = [].
Proof.
  induction 1 as [|ev evs Hev _ IH]; [done|].
  rewrite filter_cons_False; [done | congruence].
Qed.




(** ** Relations that every operation respects *)

Lemma killLog_emit (ev : Event) (st : State) :
  onKillOf ev = None → killLog (emit ev st) = killLog st.
Proof.
  intros H. unfold killLog. st_simpl.
  rewrite omap_app. simpl. rewrite H. apply app_nil_r.
Qed.

(** A relation on states that holds across the kill steps, across the
    fulfilment callback, across an object entering the heap, and across
    every step that leaves the objects, the live map and the [onKill()]
    calls alone, holds across every operation. *)
Section Closure.
Variable ok : Entity → Prop.
Variable okAt : State → nat → Prop.
Variable R : State → State → Prop.
Hypothesis R_refl : ∀ st, R st st.
Hypothesis R_trans : ∀ a b c, R a b → R b c → R a c.
Hypothesis R_frame : ∀ st st',
  objects st' = objects st → entities st' = entities st →
  killLog st' = killLog st → R st st'.
Hypothesis R_killSteps : ∀ k st, R st (killSteps k st).
Hypothesis R_then : ∀ e st, ok e → R st (newEntityThen e st).
Hypothesis R_thenAt : ∀ r st, okAt st r → R st (newEntityThenAt r st).
Hypothesis R_alloc : ∀ now i d st,
  R st (set_objects (objects st ++ [Entity_new now i d]) st).
Hypothesis okAt_frame : ∀ st st' r,
  objects st' = objects st → entities st' = entities st →
  okAt st r → okAt st' r.

Ltac frame_side :=
  first [ reflexivity
        | rewrite ?killLog_emit by reflexivity; reflexivity ].

Ltac frame_step := apply R_frame; frame_side.

Lemma R_killLoop (ks : list string) (st : State) :
  R st (foldl (fun s k => killSteps k s) st ks).
Proof.
  revert st. induction ks as [|k ks IH]; intros st; simpl; [apply R_refl|].
  eapply R_trans; [apply R_killSteps | apply IH].
Qed.

Lemma R_markPendingFlush (st : State) : R st (markPendingFlush st).
Proof. by apply R_frame. Qed.

Lemma R_killEntity (i : string) (st : State) : R st (killEntity i st).
Proof.
  unfold killEntity.
  eapply R_trans; [apply R_killSteps | apply R_markPendingFlush].
Qed.

Lemma R_killAllEntities (st : State) : R st (killAllEntities st).
Proof.
  unfold killAllEntities.
  eapply R_trans; [apply R_killLoop | apply R_markPendingFlush].
Qed.

Lemma R_newEntity (d : EntityData) (st : State) : R st (newEntity d st).
Proof.
  unfold newEntity.
  destruct (started st); [|frame_step].
  destruct (bool_decide (d_type d ∈ entityTypes st)); [frame_step|].
  destruct (bool_decide (d_type d ∈ objectPrototypeKeys)); frame_step.
Qed.

Lemma R_newEntityLoop (ds : list EntityData) (st : State) :
  R st (foldl (fun s entity => newEntity entity s) st ds).
Proof.
  revert st. induction ds as [|d ds IH]; intros st; simpl; [apply R_refl|].
  eapply R_trans; [apply R_newEntity | apply IH].
Qed.

Lemma R_resetEntities (st : State) : R st (resetEntities st).
Proof.
  unfold resetEntities. destruct (started st); [|apply R_refl].
  eapply R_trans; [apply (R_frame st (emit EvReset st)); frame_side|].
  eapply R_trans; [apply R_killAllEntities|].
  eapply R_trans; [apply R_newEntityLoop|].
  by apply R_frame.
Qed.

Lemma R_onModify (st : State) : R st (onModify st).
Proof.
  unfold onModify.
  destruct (started st), (duringOurModification st); try apply R_refl.
  apply R_resetEntities.
Qed.

Lemma R_saveToDynamicData (st : State) : R st (saveToDynamicData st).
Proof.
  destruct (started st) eqn:Hs.
  - rewrite saveToDynamicData_started by done.
    apply R_frame; try done. unfold killLog. st_simpl.
    rewrite omap_app. simpl. apply app_nil_r.
  - rewrite saveToDynamicData_not_started by done. apply R_refl.
Qed.

Lemma R_settle (k : nat) (o : option Entity) (st : State) :
  okOp ok okAt st (OpSettle k o) → R st (settle k o st).
Proof.
  intros Hok. unfold settle. destruct (inflight st !! k) as [d|]; [|apply R_refl].
  eapply R_trans;
    [by apply (R_frame st (set_inflight (delete k (inflight st)) st))|].
  destruct o as [e|]; [by apply R_then|].
  unfold newEntityCatch. frame_step.
Qed.

Lemma R_check (now : Z) (r : nat) (st : State) :
  R st (entityCheckIfShouldKill boundKill now r st).
Proof.
  unfold entityCheckIfShouldKill.
  destruct (objects st !! r) as [this|] eqn:Hr; [|apply R_refl].
  destruct (killed this) eqn:Hk; [apply R_refl|].
  destruct (killTime this =? 0)%Z; [apply R_refl|].
  destruct (now >=? killTime this)%Z; [|by apply R_frame].
  apply R_trans with (boundKill r st); [|by apply R_frame].
  unfold boundKill. rewrite Hr, Hk. apply R_killEntity.
Qed.

Lemma R_runCallback (now : Z) (cb : Callback) (st : State) :
  R st (runCallback now cb st).
Proof.
  destruct cb as [|r]; simpl; [|apply R_check].
  unfold flushCallback.
  destruct (pendingEntityFlush st); [apply R_saveToDynamicData | apply R_refl].
Qed.

Lemma R_runImmediates (now : Z) (st : State) : R st (runImmediates now st).
Proof.
  unfold runImmediates.
  eapply R_trans; [by apply (R_frame st (set_immediates [] st))|].
  generalize (set_immediates [] st). generalize (immediates st).
  intros cbs. induction cbs as [|cb cbs IH]; intros s; simpl; [apply R_refl|].
  eapply R_trans; [apply R_runCallback | apply IH].
Qed.

Lemma R_construct (k : nat) (now : Z) (i : string) (st : State) :
  R st (construct k now i st).
Proof.
  unfold construct. destruct (inflight st !! k) as [d|]; [|apply R_refl].
  destruct (Entity_new_defers_check d); [|apply R_alloc].
  eapply R_trans; [apply R_alloc | by apply R_frame].
Qed.

Lemma R_settleWith (k r : nat) (st : State) :
  okAt st r → R st (settleWith k r st).
Proof.
  intros Hok. unfold settleWith.
  destruct (inflight st !! k) as [d|]; [|apply R_refl].
  destruct (objects st !! r) as [e|]; [|apply R_refl].
  eapply R_trans;
    [by apply (R_frame st (set_inflight (delete k (inflight st)) st))|].
  apply R_thenAt. by apply (okAt_frame st).
Qed.

Lemma R_exec (op : Op) (st : State) : okOp ok okAt st op → R st (exec op st).
Proof.
  intros Hok. destruct op; simpl.
  - by apply R_frame.
  - unfold start. destruct (started st); [apply R_refl|].
    apply R_trans with (set_started true st); [|apply R_resetEntities].
    by apply R_frame.
  - apply R_newEntity.
  - by apply R_settle.
  - apply R_construct.
  - by apply R_settleWith.
  - apply R_killEntity.
  - apply R_killAllEntities.
  - apply R_resetEntities.
  - apply R_markPendingFlush.
  - apply R_saveToDynamicData.
  - unfold DynamicData_modify.
    eapply R_trans; [|apply R_onModify]. by apply R_frame.
  - apply R_runImmediates.
  - apply R_check.
Qed.

Lemma R_run (ops : list Op) (st : State) :
  runWith (okOp ok okAt) ops st → R st (run ops st).
Proof.
  revert st. induction ops as [|op ops IH]; intros st H; simpl.
  - apply R_refl.
  - destruct H as [Hop H]. eapply R_trans; [by apply R_exec | by apply IH].
Qed.
End Closure.

(** ** Entity data is never touched *)

Lemma sameData_refl (e : Entity) : sameData e e.
Proof. by repeat split. Qed.

Lemma keepsData_refl (st : State) : keepsData st st.
Proof. intros r e H. exists e. split; [done | apply sameData_refl]. Qed.

Lemma keepsData_trans (a b c : State) :
  keepsData a b → keepsData b c → keepsData a c.
Proof.
  intros H G r e He. destruct (H r e He) as (e1 & He1 & S1 & S2 & S3 & S4).
  destruct (G r e1 He1) as (e2 & He2 & T1 & T2 & T3 & T4).
  exists e2. split; [done|]. split; [auto|]. repeat split; congruence.
Qed.

Lemma keepsData_same (st st' : State) :
  objects st' = objects st → keepsData st st'.
Proof. intros Ho r e H. exists e. rewrite Ho. split; [done | apply sameData_refl]. Qed.

Lemma runWith_any (ops : list Op) (st : State) :
  runWith (okOp (fun _ => True) (fun _ _ => True)) ops st.
Proof.
  revert st. induction ops as [|op ops IH]; intros st; simpl; [done|].
  split; [|apply IH]. by destruct op as [| | |? []| | | | | | | | | |].
Qed.

Lemma keepsData_frame (st st' : State) :
  objects st' = objects st → entities st' = entities st →
  killLog st' = killLog st → keepsData st st'.
Proof. intros Ho _ _ r e H. exists e. rewrite Ho. split; [done | apply sameData_refl]. Qed.

Lemma keepsData_alter (v : nat) (objs objs' : list Entity) (r : nat) (e : Entity) :
  objs !! r = Some e →
  (∀ s x, objs !! s = Some x → objs' !! s = Some x) →
  ∃ e', alter (set_killed true) v objs' !! r = Some e' ∧ sameData e e'.
Proof.
  intros He Hsub. apply Hsub in He. destruct (decide (v = r)) as [->|Hne].
  - exists (set_killed true e). by rewrite list_lookup_alter_eq, He.
  - exists e. rewrite list_lookup_alter_ne by done. split; [done | apply sameData_refl].
Qed.

Lemma keepsData_killSteps (k : string) (st : State) : keepsData st (killSteps k st).
Proof.
  unfold killSteps. destruct (entities st !! k) as [v|]; [|apply keepsData_refl].
  intros r e He. st_simpl. by apply (keepsData_alter v (objects st)).
Qed.

Lemma keepsData_alloc (x : Entity) (st : State) :
  keepsData st (set_objects (objects st ++ [x]) st).
Proof.
  intros r e He. exists e. split; [|apply sameData_refl].
  st_simpl. rewrite lookup_app_l; [done|]. by apply lookup_lt_Some in He.
Qed.

Lemma keepsData_insertAs (nid : string) (r : nat) (st : State) :
  keepsData st (insertAs nid r st).
Proof.
  apply keepsData_trans with (killSteps nid st);
    [apply keepsData_killSteps | by apply keepsData_same].
Qed.

(** Line 185 writes the [id] of an object that has none. *)
Lemma keepsData_set_id (nid : string) (r : nat) (e : Entity) (st : State) :
  objects st !! r = Some e → id e = None →
  keepsData st (set_objects (alter (set_id nid) r (objects st)) st).
Proof.
  intros Hr Hid s x Hx. st_simpl. destruct (decide (r = s)) as [<-|Hne].
  - exists (set_id nid x). rewrite list_lookup_alter_eq, Hx. split; [done|].
    assert (x = e) as -> by congruence.
    split; [|done]. intros i Hi. congruence.
  - exists x. rewrite list_lookup_alter_ne by done.
    split; [done | apply sameData_refl].
Qed.

Lemma keepsData_thenAt (r : nat) (st : State) :
  True → keepsData st (newEntityThenAt r st).
Proof.
  intros _. unfold newEntityThenAt.
  destruct (objects st !! r) as [e|] eqn:Hr; [|apply keepsData_refl].
  destruct (id e) as [i|] eqn:Hid; [apply keepsData_insertAs|].
  destruct (freshId (entities st)) as [nid|]; [|apply keepsData_refl].
  eapply keepsData_trans; [by apply (keepsData_set_id nid r e)|].
  apply keepsData_insertAs.
Qed.

Lemma keepsData_then (e : Entity) (st : State) :
  True → keepsData st (newEntityThen e st).
Proof.
  intros _. unfold newEntityThen.
  eapply keepsData_trans; [apply keepsData_alloc | by apply keepsData_thenAt].
Qed.

(** X6. The registry writes two fields of an entity object only: [killed],
    and [id] when the factory left the object without one.  Along every
    run, an object keeps the [id] it has, if it has one, and its [type],
    [createTime] and [killTime]. *)
Theorem X6_entity_data_untouched (ops : list Op) (st : State) (r : nat)
    (e : Entity) :
  objects st !! r = Some e →
  ∃ e', objects (run ops st) !! r = Some e'
        ∧ (∀ i, id e = Some i → id e' = Some i)
        ∧ type e' = type e ∧ createTime e' = createTime e
        ∧ killTime e' = killTime e.
Proof.
  intros He.
  assert (H : keepsData st (run ops st)).
  { apply (R_run (fun _ => True) (fun _ _ => True) keepsData keepsData_refl
             keepsData_trans keepsData_frame keepsData_killSteps keepsData_then
             keepsData_thenAt (fun _ _ _ => keepsData_alloc _)); [done|].
    apply runWith_any. }
  destruct (H r e He) as (e' & He' & Hs). by exists e'.
Qed.

(** ** Live entities carry their key *)

Lemma idInv_frame (st st' : State) :
  objects st' = objects st → entities st' = entities st →
  killLog st' = killLog st → idInv st → idInv st'.
Proof. intros Ho He _. unfold idInv. by rewrite Ho, He. Qed.

Lemma idInv_killSteps (k : string) (st : State) :
  idInv st → idInv (killSteps k st).
Proof.
  intros H. unfold killSteps.
  destruct (entities st !! k) as [v|]; [|done].
  intros i r Hi. revert Hi. st_simpl. intros Hi.
  apply lookup_delete_Some in Hi as [_ Hi].
  destruct (H i r Hi) as (e & He & Hid).
  destruct (keepsData_alter v (objects st) (objects st) r e He) as (e' & He' & Hs);
    [done|].
  exists e'. split; [done|]. destruct Hs as [Hs _]. by apply Hs.
Qed.

Lemma idInv_alloc (x : Entity) (st : State) :
  idInv st → idInv (set_objects (objects st ++ [x]) st).
Proof.
  intros H i r Hi. destruct (H i r Hi) as (e & He & Hid).
  exists e. split; [|done]. st_simpl.
  rewrite lookup_app_l; [done|]. by apply lookup_lt_Some in He.
Qed.

Lemma idInv_insertAs (nid : string) (r : nat) (e : Entity) (st : State) :
  objects st !! r = Some e → id e = Some nid →
  idInv st → idInv (insertAs nid r st).
Proof.
  intros Hr Hid H.
  pose proof (idInv_killSteps nid st H) as Hk.
  intros i s Hi. unfold insertAs, killEntity in *. revert Hi. st_simpl. intros Hi.
  apply lookup_insert_Some in Hi as [[<- <-]|[Hne Hi]].
  - destruct (keepsData_killSteps nid st r e Hr) as (e' & He' & Hs & _).
    exists e'. split; [done | by apply Hs].
  - by apply Hk.
Qed.

Lemma idInv_thenAt (r : nat) (st : State) :
  True → idInv st → idInv (newEntityThenAt r st).
Proof.
  intros _ H. unfold newEntityThenAt.
  destruct (objects st !! r) as [e|] eqn:Hr; [|done].
  destruct (id e) as [i|] eqn:Hid; [by apply (idInv_insertAs i r e)|].
  destruct (freshId (entities st)) as [nid|]; [|done].
  apply (idInv_insertAs nid r (set_id nid e)).
  - st_simpl. by rewrite list_lookup_alter_eq, Hr.
  - done.
  - intros j s Hj. revert Hj. st_simpl. intros Hj.
    destruct (H j s Hj) as (x & Hx & Hxid).
    exists x. split; [|done]. rewrite list_lookup_alter_ne; [done|].
    intros <-. congruence.
Qed.

Lemma idInv_then (e : Entity) (st : State) :
  True → idInv st → idInv (newEntityThen e st).
Proof.
  intros _ H. unfold newEntityThen. apply idInv_thenAt; [done|].
  by apply idInv_alloc.
Qed.

Lemma idInv_run (ops : list Op) (st : State) : idInv st → idInv (run ops st).
Proof.
  apply (R_run (fun _ => True) (fun _ _ => True) (fun a b => idInv a → idInv b)).
  - done.
  - auto.
  - apply idInv_frame.
  - apply idInv_killSteps.
  - apply idInv_then.
  - apply idInv_thenAt.
  - intros now i d s. apply idInv_alloc.
  - done.
  - apply runWith_any.
Qed.

(** X7. Along every run from the constructor, each entry of the live map
    points at an existing entity object whose [id] is the entry's key,
    whether the id came with the entity or was generated. *)
Theorem X7_live_entities_carry_their_key (data : list EntityData)
    (ops : list Op) (i : string) (r : nat) :
  entities (run ops (init data)) !! i = Some r →
  ∃ e, objects (run ops (init data)) !! r = Some e ∧ id e = Some i.
Proof.
  apply (idInv_run ops (init data)). intros j s Hj.
  cbn [entities init] in Hj. by rewrite lookup_empty in Hj.
Qed.

(** ** [onKill()] runs exactly once per killed entity *)











(** ** What a save writes *)

Lemma saveMutator_records (st : State) (d : list EntityData) :
  idInv st →
  Forall2 (fun kv rec => ∃ e, objects st !! kv.2 = Some e
                             ∧ id e = Some kv.1 ∧ rec = toSaveData e)
    (map_to_list (entities st)) (saveMutator st d).
Proof.
  intros H. unfold saveMutator. rewrite drop_all, app_nil_l.
  assert (Hl : ∀ kv, kv ∈ map_to_list (entities st) →
            entities st !! kv.1 = Some kv.2).
  { intros [k v] Hkv. by apply elem_of_map_to_list. }
  induction (map_to_list (entities st)) as [|[k v] l IH]; [constructor|].
  destruct (H k v) as (e & He & Hid); [apply (Hl (k, v)); left|].
  cbn [omap list_omap snd]. rewrite He. cbn [fmap option_fmap option_map].
  constructor.
  - by exists e.
  - apply IH. intros kv Hkv. apply Hl. by right.
Qed.

(** X9. A save by a started registry writes one record per live entity,
    the [toSaveData()] of that entity, and nothing else: what the store
    held before is discarded, so records whose entity is not live (killed,
    failed, or still under construction) are gone from the snapshot. *)
Theorem X9_save_writes_the_live_set (data old : list EntityData)
    (ops : list Op) :
  let st := run ops (init data) in
  started st = true →
  let saved := entityData (saveToDynamicData st) in
  Forall2 (fun kv rec => ∃ e, objects st !! kv.2 = Some e
                             ∧ id e = Some kv.1 ∧ rec = toSaveData e)
    (map_to_list (entities st)) saved
  ∧ length saved = size (entities st)
  ∧ entityData (saveToDynamicData (set_entityData old st)) = saved.
Proof.
  intros st Hs saved.
  assert (Hinv : idInv st).
  { apply idInv_run. intros j s Hj. cbn [entities init] in Hj.
    by rewrite lookup_empty in Hj. }
  assert (E : ∀ d, entityData (saveToDynamicData (set_entityData d st))
              = saveMutator st d).
  { intros d. rewrite saveToDynamicData_started by done. reflexivity. }
  assert (Es : saved = saveMutator st (entityData st)).
  { unfold saved. rewrite saveToDynamicData_started by done. reflexivity. }
  pose proof (saveMutator_records st (entityData st) Hinv) as HF.
  rewrite Es. split; [done|]. split.
  - rewrite <- (Forall2_length _ _ _ HF). apply length_map_to_list.
  - rewrite E. unfold saveMutator. by rewrite !drop_all.
Qed.

Lemma modifyCalls_killEntity (i : string) (st : State) :
  modifyCalls (killEntity i st) = modifyCalls st.
Proof.
  unfold killEntity, modifyCalls. st_simpl.
  destruct (killSteps_frame i st) as (_ & _ & _ & _ & _ & _ & _ & _ & kills & Hk & ->).
  rewrite filter_app, (filter_modify_none kills); [by rewrite app_nil_r|].
  eapply Forall_impl; [exact Hk|]. by intros [].
Qed.

(** One expiry check either leaves the registry and the store alone, or
    kills and marks a pending flush; it never writes the store. *)
Lemma check_cases (now : Z) (r : nat) (st : State) :
  let st' := entityCheckIfShouldKill boundKill now r st in
  started st' = started st
  ∧ modifyCalls st' = modifyCalls st
  ∧ ((objects st' = objects st ∧ entities st' = entities st
      ∧ entityData st' = entityData st
      ∧ pendingEntityFlush st' = pendingEntityFlush st
      ∧ immediates st' = immediates st)
     ∨ (pendingEntityFlush st' = true ∧ FlushCb ∈ immediates st')).
Proof.
  unfold entityCheckIfShouldKill.
  destruct (objects st !! r) as [this|] eqn:Hr; [|by repeat split; try left].
  destruct (killed this) eqn:Hk; [by repeat split; try left|].
  destruct (killTime this =? 0)%Z; [by repeat split; try left|].
  destruct (now >=? killTime this)%Z; [|by repeat split; try left].
  unfold boundKill. rewrite Hr, Hk.
  set (i := default "undefined" (id this)).
  destruct (killEntity_marks i st) as [Hi Hp].
  split; [|split; [|right; split]].
  - st_simpl. unfold killEntity. st_simpl.
    by destruct (killSteps_frame i st) as (_ & _ & _ & -> & _).
  - apply (modifyCalls_killEntity i st).
  - exact Hp.
  - st_simpl. rewrite Hi. apply elem_of_app. right. left.
Qed.

Lemma idInv_runCallback (now : Z) (cb : Callback) (st : State) :
  idInv st → idInv (runCallback now cb st).
Proof.
  apply (R_runCallback (fun a b => idInv a → idInv b)).
  - done.
  - auto.
  - apply idInv_frame.
  - apply idInv_killSteps.
Qed.

Lemma tickInv_step (base : nat) (now : Z) (cb : Callback) (rest : list Callback)
    (st : State) :
  tickInv base (cb :: rest) st → tickInv base rest (runCallback now cb st).
Proof.
  intros (Hs & Hinv & Hclean & Hdirty & Hle & Hw).
  pose proof (idInv_runCallback now cb st Hinv) as Hinv'.
  destruct cb as [|r]; cbn [runCallback] in *.
  - unfold flushCallback in *. destruct (pendingEntityFlush st) eqn:Hp.
    + pose proof (modifyCalls_save st Hs) as Hm.
      split; [by rewrite saveToDynamicData_started|].
      split; [done|]. split; [|split; [|split; [lia | left; lia]]].
      * intros _. rewrite saveToDynamicData_started by done.
        apply (saveMutator_records st (entityData st) Hinv).
      * rewrite saveToDynamicData_started by done. intros Hc. discriminate Hc.
    + split; [done|]. split; [done|]. split; [intros _; by apply Hclean|].
      split; [intros Hc; congruence|]. split; [done|].
      destruct Hw as [Hw|[Hc _]]; [by left | congruence].
  - destruct (check_cases now r st) as (Hs' & Hm & Hcase).
    cbv zeta in Hs', Hm, Hcase.
    split; [congruence|]. split; [done|].
    assert (Hrest : FlushCb ∈ CheckCb r :: rest → FlushCb ∈ rest).
    { intros Hin. by apply elem_of_cons in Hin as [Hin|Hin]. }
    destruct Hcase as [(Ho & He & Hd & Hp & Hi)|[Hp Hi]].
    + split; [|split; [|split; [lia|]]].
      * intros Hc. unfold storeIsLiveSet. rewrite Ho, He, Hd.
        apply Hclean. congruence.
      * intros Hc. rewrite Hi.
        destruct Hdirty as [Hd'|Hd']; [congruence | by left | right; auto].
      * rewrite Hm, Hp. destruct Hw as [Hw|[Hc Hin]]; [by left | right; auto].
    + split; [|split; [|split; [lia|]]].
      * intros Hc. congruence.
      * intros _. by left.
      * rewrite Hm. destruct Hw as [Hw|[Hc Hin]]; [by left | right; auto].
Qed.

Lemma tickInv_fold (base : nat) (now : Z) (cbs : list Callback) (st : State) :
  tickInv base cbs st →
  tickInv base [] (foldl (fun s cb => runCallback now cb s) st cbs).
Proof.
  revert st. induction cbs as [|cb cbs IH]; intros st H; simpl; [done|].
  apply IH. by apply tickInv_step.
Qed.

(** X10. The store catches up: in a started registry with a flush pending,
    reached on ids that are not inherited names, the next turn of the
    event loop writes the store at least once; at its end either the flag
    is clear and the store holds exactly the save data of the entities
    that are live then, or the flag is set again (an expiry check killed
    an entity after the last write of the turn) and a flush callback waits
    for the turn after. *)
Theorem X10_store_catches_up (data : list EntityData) (ops : list Op)
    (now : Z) :
  Forall plainOp ops →
  let st1 := run ops (init data) in
  started st1 = true →
  pendingEntityFlush st1 = true →
  FlushCb ∈ immediates st1 →
  let st2 := runImmediates now st1 in
  modifyCalls st1 < modifyCalls st2
  ∧ (pendingEntityFlush st2 = false →
       Forall2 (fun kv rec => ∃ e, objects st2 !! kv.2 = Some e
                                  ∧ id e = Some kv.1 ∧ rec = toSaveData e)
         (map_to_list (entities st2)) (entityData st2)
       ∧ length (entityData st2) = size (entities st2))
  ∧ (pendingEntityFlush st2 = true → FlushCb ∈ immediates st2).
Proof.
  intros _ st1 Hs Hp Hin st2.
  assert (Hinv : idInv st1).
  { apply idInv_run. intros j s Hj. cbn [entities init] in Hj.
    by rewrite lookup_empty in Hj. }
  assert (H0 : tickInv (modifyCalls st1) (immediates st1) (set_immediates [] st1)).
  { split; [done|]. split; [done|]. split; [|split; [|split]].
    - st_simpl. intros Hc. congruence.
    - intros _. by right.
    - done.
    - right. by split. }
  apply (tickInv_fold _ now) in H0. fold (runImmediates now st1) in H0.
  fold st2 in H0. destruct H0 as (_ & _ & Hclean & Hdirty & _ & Hw).
  split; [|split].
  - destruct Hw as [Hw|[_ Hnil]]; [done | by apply elem_of_nil in Hnil].
  - intros Hc. pose proof (Hclean Hc) as HF. split; [exact HF|].
    rewrite <- (length_map_to_list (entities st2)). symmetry.
    exact (Forall2_length _ _ _ HF).
  - intros Hc. destruct (Hdirty Hc) as [Hd|Hnil]; [done | by apply elem_of_nil in Hnil].
Qed.

(** ** Expiry of a live entity *)

(** X11. When the expiry check of a live, unexpired-so-far entity runs at
    or after its kill time, and its [kill()] is connected to
    [killEntity(this.id)] (lines 80-83), the entity leaves the live map
    with [killed] set and [onKill()] called, a flush is marked and one
    follow-up check is armed at 1000 ms; that follow-up, like any later
    check, finds the entity killed and arms nothing, so the timer chain
    ends. *)
Theorem X11_expiry_kills_and_stops (kill : nat → State → State) (now : Z)
    (r : nat) (st : State) (this : Entity) (i : string) :
  (∀ s e, objects s !! r = Some e → killed e = false → id e = Some i →
          kill r s = killEntity i s) →
  objects st !! r = Some this →
  killed this = false →
  id this = Some i →
  entities st !! i = Some r →
  killTime this ≠ 0%Z →
  (killTime this ≤ now)%Z →
  let st' := entityCheckIfShouldKill kill now r st in
  entities st' = delete i (entities st)
  ∧ objects st' !! r = Some (set_killed true this)
  ∧ killLog st' = killLog st ++ [r]
  ∧ pendingEntityFlush st' = true
  ∧ timeouts st' = timeouts st ++ [(CheckCb r, 1000%Z)]
  ∧ ∀ now', entityCheckIfShouldKill kill now' r st' = st'.
Proof.
  intros Hkill Hr Hk Hid Hi Hkt Hnow st'.
  assert (E : st' = set_timeouts (timeouts st ++ [(CheckCb r, 1000%Z)])
    (markPendingFlush
       (emit (EvOnKill r)
          (set_entities (delete i (entities st))
             (set_objects (alter (set_killed true) r (objects st)) st))))).
  { unfold st', entityCheckIfShouldKill. rewrite Hr, Hk.
    destruct (Z.eqb_spec (killTime this) 0) as [|_]; [done|].
    destruct (Z.geb_spec now (killTime this)) as [_|]; [|lia].
    rewrite (Hkill st this Hr Hk Hid).
    unfold killEntity, killSteps. rewrite Hi. reflexivity. }
  assert (Ho : objects st' !! r = Some (set_killed true this)).
  { rewrite E. st_simpl. by rewrite list_lookup_alter_eq, Hr. }
  split; [by rewrite E|]. split; [done|]. split; [|split; [by rewrite E|split]].
  - rewrite E. unfold killLog. st_simpl. by rewrite omap_app.
  - by rewrite E.
  - intros now'. unfold entityCheckIfShouldKill. by rewrite Ho.
Qed.

(** ** Pending constructions are never cancelled *)

Lemma inflight_callback (now : Z) (cb : Callback) (st : State) :
  inflight (runCallback now cb st) = inflight st.
Proof.
  assert (Hk : ∀ i s, inflight (killEntity i s) = inflight s).
  { intros i s. unfold killEntity. st_simpl.
    by destruct (killSteps_frame i s) as (_ & _ & _ & _ & _ & -> & _). }
  destruct cb as [|r]; simpl.
  - unfold flushCallback. destruct (pendingEntityFlush st); [|done].
    destruct (started st) eqn:Hs.
    + by rewrite saveToDynamicData_started.
    + by rewrite saveToDynamicData_not_started.
  - unfold entityCheckIfShouldKill.
    destruct (objects st !! r) as [this|] eqn:Hr; [|done].
    destruct (killed this) eqn:Hkd; [done|].
    destruct (killTime this =? 0)%Z; [done|].
    destruct (now >=? killTime this)%Z; [|done].
    st_simpl. unfold boundKill. rewrite Hr, Hkd. apply Hk.
Qed.

Lemma inflight_resetEntities (st : State) :
  inflight st `prefix_of` inflight (resetEntities st).
Proof.
  destruct (started st) eqn:Hs.
  - rewrite resetEntities_started by done.
    destruct (killAllEntities_frame (emit EvReset st)) as (_ & _ & _ & Hi & _).
    unfold set_pendingEntityFlush, withAttempts. cbn [inflight].
    rewrite Hi. by apply prefix_app_r.
  - unfold resetEntities. by rewrite Hs.
Qed.

(** X12. There is no cancellation: whatever the registry does, apart from
    the settling of a factory promise itself (with a rejection, or with an
    object, new to the heap or not), the constructions in flight stay in
    flight, in their order; kills, resets, saves and expiry checks only
    ever add to them. *)
Theorem X12_no_cancellation (op : Op) (st : State) :
  (∀ k o, op ≠ OpSettle k o) →
  (∀ k r, op ≠ OpSettleWith k r) →
  inflight st `prefix_of` inflight (exec op st).
Proof.
  intros Hop Hop'. destruct op; cbn [exec]; try reflexivity.
  - unfold start. destruct (started st); [done|].
    apply (inflight_resetEntities (set_started true st)).
  - unfold newEntity.
    destruct (started st), (bool_decide (d_type data ∈ entityTypes st)),
      (bool_decide (d_type data ∈ objectPrototypeKeys));
      st_simpl; try done; by apply prefix_app_r.
  - by destruct (Hop k outcome).
  - unfold construct. destruct (inflight st !! k) as [d|]; [|done].
    by destruct (Entity_new_defers_check d).
  - by destruct (Hop' k r).
  - unfold killEntity. st_simpl.
    by destruct (killSteps_frame i st) as (_ & _ & _ & _ & _ & -> & _).
  - by destruct (killAllEntities_frame st) as (_ & _ & _ & -> & _).
  - apply inflight_resetEntities.
  - destruct (started st) eqn:Hs.
    + by rewrite saveToDynamicData_started.
    + by rewrite saveToDynamicData_not_started.
  - unfold DynamicData_modify, onModify. st_simpl.
    destruct (started st), (duringOurModification st); try done.
    apply (inflight_resetEntities (set_entityData d st)).
  - unfold runImmediates.
    assert (H : ∀ cbs s, inflight (foldl (fun s cb => runCallback now cb s) s cbs)
                         = inflight s).
    { intros cbs. induction cbs as [|cb cbs IH]; intros s; simpl; [done|].
      by rewrite IH, inflight_callback. }
    by rewrite H.
  - change (entityCheckIfShouldKill boundKill now r st)
      with (runCallback now (CheckCb r) st).
    by rewrite inflight_callback.
Qed.


(** ** Which types have a factory *)

(** X14. [registerAllEntities] gives a factory to [date-activity],
    [page-switcher] and [random-activity], and outside safety mode also to
    [old-behaviors] and [greeter]; so in safety mode a started registry
    that had no factory for these two drops their records (log and
    rejection, nothing in flight), where otherwise it calls the factory. *)
Theorem X14_safety_mode (st : State) :
  entityTypes (registerAllEntities true st)
  = {[ "date-activity"; "page-switcher"; "random-activity" ]} ∪ entityTypes st
  ∧ entityTypes (registerAllEntities false st)
    = {[ "old-behaviors"; "greeter" ]} ∪ entityTypes (registerAllEntities true st)
  ∧ ∀ d, started st = true →
         d_type d = "greeter" ∨ d_type d = "old-behaviors" →
         d_type d ∉ entityTypes st →
         newEntity d (registerAllEntities true st)
         = emit EvRejected
             (emit (EvLog ("invalid entity type " +:+ d_type d +:+ " was in registry"))
                (registerAllEntities true st))
         ∧ inflight (newEntity d (registerAllEntities false st))
           = inflight st ++ [d].
Proof.
  assert (H1 : entityTypes (registerAllEntities true st)
    = {[ "date-activity"; "page-switcher"; "random-activity" ]} ∪ entityTypes st).
  { unfold registerAllEntities. simpl. set_solver. }
  assert (H2 : entityTypes (registerAllEntities false st)
    = {[ "old-behaviors"; "greeter" ]} ∪ entityTypes (registerAllEntities true st)).
  { unfold registerAllEntities. simpl. set_solver. }
  assert (Hst : ∀ b, started (registerAllEntities b st) = started st
                     ∧ inflight (registerAllEntities b st) = inflight st).
  { by intros []. }
  split; [done|]. split; [done|].
  intros d Hs Hd Hnot. split.
  - unfold newEntity. rewrite (proj1 (Hst true)), Hs.
    rewrite bool_decide_eq_false_2.
    { rewrite bool_decide_eq_false_2; [done|]. unfold objectPrototypeKeys.
      intros Hin. destruct Hd as [Hd|Hd]; rewrite Hd in Hin;
        repeat (apply elem_of_cons in Hin as [Hin|Hin]; [discriminate Hin|]);
        by apply elem_of_nil in Hin. }
    rewrite H1. rewrite !elem_of_union, !elem_of_singleton.
    intros [[[Hc|Hc]|Hc]|Hc]; [| | |done];
      destruct Hd as [Hd|Hd]; rewrite Hd in Hc; discriminate Hc.
  - unfold newEntity. rewrite (proj1 (Hst false)), Hs.
    rewrite bool_decide_eq_true_2.
    + st_simpl. by rewrite (proj2 (Hst false)).
    + rewrite H2. rewrite !elem_of_union, !elem_of_singleton.
      left. destruct Hd as [->| ->]; auto.
Qed.

(** ** Generated ids are dense *)

Lemma freshId_dense (ents : gmap string nat) (n : nat) :
  denseIds n ents → freshId ents = Some (pretty n).
Proof.
  intros Hd. destruct (freshId_total ents) as (m & Hf & Hlow & Hnone).
  rewrite Hf. f_equal. f_equal.
  destruct (lt_eq_lt_dec m n) as [[Hlt|Heq]|Hgt]; [|done|].
  - assert (Hs : is_Some (ents !! pretty m)) by (apply Hd; by exists m).
    rewrite Hnone in Hs. by destruct Hs.
  - destruct (proj1 (Hd (pretty n)) (Hlow n Hgt)) as (j & Hj & Heq).
    apply (inj pretty) in Heq. lia.
Qed.

Lemma resolveAll_dense (es : list Entity) (st : State) (n : nat) :
  Forall (fun e => id e = None) es →
  denseIds n (entities st) →
  denseIds (n + length es) (entities (resolveAll es st))
  ∧ (∀ i r, entities st !! i = Some r → entities (resolveAll es st) !! i = Some r)
  ∧ (∀ r x, objects st !! r = Some x → objects (resolveAll es st) !! r = Some x)
  ∧ killLog (resolveAll es st) = killLog st
  ∧ ∀ k e, es !! k = Some e →
      entities (resolveAll es st) !! pretty (n + k)
      = Some (length (objects st) + k)
      ∧ objects (resolveAll es st) !! (length (objects st) + k)
        = Some (set_id (pretty (n + k)) e).
Proof.
  intros Hes. revert st n.
  induction Hes as [|e es He _ IH]; intros st n Hd.
  - simpl. rewrite Nat.add_0_r.
    split; [done|]. split; [done|]. split; [done|]. split; [done|].
    intros k e Hk. by rewrite lookup_nil in Hk.
  - cbn [resolveAll foldl]. fold (resolveAll es (newEntityThen e st)).
    pose proof (freshId_dense _ _ Hd) as Hf.
    assert (Hnone : entities st !! pretty n = None).
    { destruct (entities st !! pretty n) eqn:Hl; [|done].
      destruct (proj1 (Hd (pretty n))) as (j & Hj & Heq); [by rewrite Hl|].
      apply (inj pretty) in Heq. lia. }
    assert (E : newEntityThen e st
      = emit (EvResolved (length (objects st)))
          (markPendingFlush
             (set_entities (<[pretty n := length (objects st)]> (entities st))
                (markPendingFlush
                   (set_objects (objects st ++ [set_id (pretty n) e]) st))))).
    { apply newEntityThen_fresh; [by rewrite He | done]. }
    assert (Hd1 : denseIds (S n) (entities (newEntityThen e st))).
    { rewrite E. st_simpl. intros s. rewrite lookup_insert_is_Some. split.
      - intros [<-|[_ Hs]]; [exists n; split; [lia | done]|].
        apply Hd in Hs as (j & Hj & ->). exists j. split; [lia | done].
      - intros (j & Hj & ->). destruct (decide (j = n)) as [->|Hne]; [by left|].
        right. split; [intros Heq; apply (inj pretty) in Heq; lia|].
        apply Hd. exists j. split; [lia | done]. }
    destruct (IH (newEntityThen e st) (S n) Hd1) as (H1 & H2 & H3 & H4 & H5).
    assert (Hlen : length (objects (newEntityThen e st)) = S (length (objects st))).
    { rewrite E. st_simpl. rewrite length_app. simpl. lia. }
    split; [|split; [|split; [|split]]].
    + replace (n + length (e :: es)) with (S n + length es) by (simpl; lia). done.
    + intros i r Hi. apply H2. rewrite E. st_simpl.
      rewrite lookup_insert_ne; [done | congruence].
    + intros r x Hr. apply H3. rewrite E. st_simpl.
      rewrite lookup_app_l; [done|]. by apply lookup_lt_Some in Hr.
    + rewrite H4, E. unfold killLog. st_simpl. by rewrite omap_app, app_nil_r.
    + intros [|k] e' Hk.
      * injection Hk as <-. rewrite !Nat.add_0_r. split.
        -- apply H2. rewrite E. st_simpl. apply lookup_insert_eq.
        -- apply H3. rewrite E. st_simpl. by apply list_lookup_middle.
      * destruct (H5 k e' Hk) as [G1 G2]. rewrite Hlen in G1, G2.
        replace (n + S k) with (S n + k) by lia.
        replace (length (objects st) + S k) with (S (length (objects st)) + k) by lia.
        done.
Qed.

(** X15. Generated ids are dense and follow the order of resolution: when
    the live ids are "0" .. "n-1" and factories resolve with entities that
    have no id, the k-th of them to resolve becomes live under "n+k",
    nothing is killed or displaced, and the live ids are then
    "0" .. "n+m-1"; the id of an entity depends on when its factory
    resolved, not on where its record stood in the snapshot. *)
Theorem X15_generated_ids_are_dense (es : list Entity) (st : State) (n : nat) :
  Forall (fun e => id e = None) es →
  denseIds n (entities st) →
  let st' := resolveAll es st in
  denseIds (n + length es) (entities st')
  ∧ size (entities st') = n + length es
  ∧ killLog st' = killLog st
  ∧ (∀ i r, entities st !! i = Some r → entities st' !! i = Some r)
  ∧ ∀ k e, es !! k = Some e →
      ∃ r, entities st' !! pretty (n + k) = Some r
           ∧ objects st' !! r = Some (set_id (pretty (n + k)) e).
Proof.
  intros Hes Hd st'.
  destruct (resolveAll_dense es st n Hes Hd) as (H1 & H2 & _ & H4 & H5).
  split; [done|]. split; [|split; [done|split; [done|]]].
  - apply Nat.le_antisymm.
    + rewrite <- size_dom.
      assert (Hsub : dom (entities st')
                ⊆ (list_to_set (pretty <$> seq 0 (n + length es)) : gset string)).
      { intros s Hs. apply elem_of_dom in Hs.
        apply H1 in Hs as (j & Hj & ->). apply elem_of_list_to_set.
        apply list_elem_of_fmap. exists j. split; [done|].
        apply elem_of_seq. lia. }
      apply subseteq_size in Hsub. rewrite size_list_to_set in Hsub.
      * by rewrite length_fmap, length_seq in Hsub.
      * apply NoDup_fmap_2; [apply _ | apply NoDup_seq].
    + apply covered_size. intros j Hj. apply H1. by exists j.
  - intros k e Hk. destruct (H5 k e Hk) as [G1 G2]. eauto.
Qed.

(** ** The further properties at concrete runs *)

Lemma X2_killAllEntities_witness :
  ∃ e', objects (killAllEntities scenarioA) !! 0 = Some e' ∧ killed e' = true.
Proof.
  destruct (X2_killAllEntities scenarioA) as (_ & H & _).
  apply (H "0" 0 (set_id "0" entityNoId)); vm_compute; reflexivity.
Defined.

Lemma X3_last_write_wins_witness :
  size (entities (newEntityThen entityZero scenarioA)) = size (entities scenarioA).
Proof.
  destruct (X3_last_write_wins scenarioA entityZero (set_id "0" entityNoId) "0" 0)
    as (_ & H & _).
  - reflexivity.
  - vm_compute. reflexivity.
  - vm_compute. reflexivity.
  - exact H.
Defined.

Lemma X4_generated_id_displaces_nothing_witness :
  size (entities (newEntityThen entityNoId scenarioA))
  = S (size (entities scenarioA)).
Proof.
  destruct (X4_generated_id_displaces_nothing scenarioA entityNoId) as (H & _).
  - reflexivity.
  - exact H.
Defined.


Lemma X6_entity_data_untouched_witness :
  ∃ e', objects (run [OpKillEntity "0"; OpTick 0] scenarioA) !! 0 = Some e'
        ∧ id e' = Some "0" ∧ type e' = "x" ∧ createTime e' = 100%Z
        ∧ killTime e' = 0%Z.
Proof.
  destruct (X6_entity_data_untouched [OpKillEntity "0"; OpTick 0] scenarioA 0
              (set_id "0" entityNoId)) as (e' & He' & Hid & Ht & Hc & Hk).
  - vm_compute. reflexivity.
  - exists e'. split; [exact He'|]. split; [apply Hid; reflexivity|].
    split; [exact Ht|]. split; [exact Hc | exact Hk].
Defined.

Lemma X7_live_entities_carry_their_key_witness :
  ∃ e, objects (run opsA (init [recordX])) !! 0 = Some e ∧ id e = Some "0".
Proof.
  apply (X7_live_entities_carry_their_key [recordX] opsA "0" 0).
  vm_compute. reflexivity.
Defined.


Lemma X9_save_writes_the_live_set_witness :
  length (entityData (saveToDynamicData (run opsA (init [recordX]))))
  = size (entities (run opsA (init [recordX]))).
Proof.
  destruct (X9_save_writes_the_live_set [recordX] [] opsA) as (_ & H & _).
  - vm_compute. reflexivity.
  - exact H.
Defined.

Lemma X10_store_catches_up_witness :
  modifyCalls (run (readyX ++ expiryBurst) (init []))
  < modifyCalls (runImmediates 1000 (run (readyX ++ expiryBurst) (init []))).
Proof.
  destruct (X10_store_catches_up [] (readyX ++ expiryBurst) 1000) as [H _].
  - unfold readyX, expiryBurst. cbn [app]. repeat constructor.
  - vm_compute. reflexivity.
  - vm_compute. reflexivity.
  - vm_compute. repeat constructor.
  - exact H.
Defined.

Lemma X11_expiry_kills_and_stops_witness :
  entities (entityCheckIfShouldKill boundKill 60 0 scenarioD)
  = delete "0" (entities scenarioD).
Proof.
  destruct (X11_expiry_kills_and_stops boundKill 60 0 scenarioD
              (set_id "0" entityExpiring) "0") as (H & _).
  - intros s e Hr Hk Hid. unfold boundKill. rewrite Hr, Hk, Hid. reflexivity.
  - vm_compute. reflexivity.
  - reflexivity.
  - reflexivity.
  - vm_compute. reflexivity.
  - simpl. discriminate.
  - simpl. lia.
  - exact H.
Defined.

Lemma X12_no_cancellation_witness :
  inflight pendingA `prefix_of` inflight (exec OpKillAllEntities pendingA).
Proof.
  apply (X12_no_cancellation OpKillAllEntities pendingA).
  - intros k o. discriminate.
  - intros k r. discriminate.
Defined.


Lemma X14_safety_mode_witness :
  inflight (newEntity greeterRecord (registerAllEntities false quiet))
  = inflight quiet ++ [greeterRecord].
Proof.
  destruct (X14_safety_mode quiet) as (_ & _ & H).
  destruct (H greeterRecord) as [_ H'].
  - vm_compute. reflexivity.
  - left. reflexivity.
  - vm_compute. intros Hin. discriminate Hin.
  - exact H'.
Defined.

Lemma X15_generated_ids_are_dense_witness :
  size (entities (resolveAll [entityNoId; entityNoId'] quiet)) = 0 + 2.
Proof.
  assert (E : entities quiet = ∅) by (vm_compute; reflexivity).
  destruct (X15_generated_ids_are_dense [entityNoId; entityNoId'] quiet 0)
    as (_ & H & _).
  - repeat constructor.
  - intros s. rewrite E, lookup_empty. split.
    + intros [x Hx]. discriminate Hx.
    + intros (j & Hj & _). lia.
  - exact H.
Defined.
